(** * A shallow embedding of [shared.h]: a reference-counted shared handle

    The C++ header defines [ControlBlockBase] with its two derived classes
    [ControlBlockPtr<Y>] and [ControlBlockHolder<Y>], the handle [SharedPtr<T>]
    and the factory [MakeShared].  Handles are C++ objects that are mutated in
    place and that may alias ([h = h], [a.Swap(a)]), so the embedding keeps
    them in a store indexed by variable, next to the heap of control blocks and
    the heap of separately allocated objects.  Every member function becomes a
    function [state -> option state]; [None] stands for undefined behaviour
    (a null or dangling control block dereferenced, [delete] of a pointer that
    no [new] returned).  A trace records allocations, count updates, destructor
    runs and deallocations in program order. *)

From stdpp Require Import base option list gmap fin_maps strings.
From Stdlib Require Import ZArith Lia.

(** * Part I: the embedding *)

(** ** Data *)

(** Handle variables, heap locations and class names. *)
Abbreviation hid := nat (only parsing).
Abbreviation loc := nat (only parsing).
Abbreviation cls := string (only parsing).

(** [size_t] on the 64-bit target: increments and decrements wrap. *)
Definition SIZE_MAX : Z := (2 ^ 64 - 1)%Z.
Definition wrap (z : Z) : Z := (z mod 2 ^ 64)%Z.

(** An address designates the sub-object at offset [off] of a separately
    allocated object, or of the storage embedded in a control block. *)
Inductive addr :=
  | Obj (l : loc) (off : nat)
  | Emb (b : loc) (off : nat).

(** A raw pointer; [None] is [nullptr]. *)
Abbreviation pointer := (option addr) (only parsing).

#[global] Instance addr_eq_dec : EqDecision addr.
Proof. solve_decision. Defined.

(** The two classes derived from [ControlBlockBase].  The class parameter [Y]
    is fixed when the block is created. *)
Inductive ControlBlockKind :=
  | ControlBlockPtr (Y : cls) (ptr_ : pointer)
  | ControlBlockHolder (Y : cls) (storage_ : list Z).

Record ControlBlockBase := mkBlock {
  ref_cnt : Z;
  derived : ControlBlockKind
}.

(** [SharedPtr<T>]: [elem] is the static parameter [T]. *)
Record SharedPtr := mkPtr {
  elem : cls;
  data_ : pointer;
  control_block_ : option loc
}.

Inductive event :=
  | EvNewBlock (b : loc)          (* [new ControlBlock...] *)
  | EvNewObj (l : loc)            (* a [new Y(...)] of the caller *)
  | EvIncr (b : loc)              (* [++control_block_->ref_cnt] *)
  | EvDecr (b : loc)              (* [--control_block_->ref_cnt] *)
  | EvDtor (Y : cls) (a : addr)   (* the destructor of [Y] runs on the object at [a] *)
  | EvFreeObj (l : loc)           (* storage of a deleted object returned *)
  | EvFreeBlock (b : loc).        (* storage of a deleted control block returned *)

#[global] Instance event_eq_dec : EqDecision event.
Proof. solve_decision. Defined.

Record state := mkState {
  handles : gmap nat SharedPtr;
  blocks : gmap nat ControlBlockBase;
  objects : gmap nat (list Z);
  trace : list event
}.

Definition init : state := mkState ∅ ∅ ∅ [].

(** ** State updates *)

Definition put_handle (h : hid) (v : SharedPtr) (s : state) : state :=
  mkState (<[h:=v]> (handles s)) (blocks s) (objects s) (trace s).

Definition drop_handle (h : hid) (s : state) : state :=
  mkState (delete h (handles s)) (blocks s) (objects s) (trace s).

Definition put_block (b : loc) (cb : ControlBlockBase) (s : state) : state :=
  mkState (handles s) (<[b:=cb]> (blocks s)) (objects s) (trace s).

Definition drop_block (b : loc) (s : state) : state :=
  mkState (handles s) (delete b (blocks s)) (objects s) (trace s).

Definition put_object (l : loc) (v : list Z) (s : state) : state :=
  mkState (handles s) (blocks s) (<[l:=v]> (objects s)) (trace s).

Definition drop_object (l : loc) (s : state) : state :=
  mkState (handles s) (blocks s) (delete l (objects s)) (trace s).

Definition emit (es : list event) (s : state) : state :=
  mkState (handles s) (blocks s) (objects s) (trace s ++ es).

Definition with_ref_cnt (n : Z) (cb : ControlBlockBase) : ControlBlockBase :=
  mkBlock n (derived cb).

(** [h.data_ = p;] and [h.control_block_ = c;] *)
Definition set_data_ (h : hid) (p : pointer) (s : state) : option state :=
  v ← handles s !! h;
  Some (put_handle h (mkPtr (elem v) p (control_block_ v)) s).

Definition set_control_block_ (h : hid) (c : option loc) (s : state) : option state :=
  v ← handles s !! h;
  Some (put_handle h (mkPtr (elem v) (data_ v) c) s).

(** A handle object comes into existence at a variable not yet in use. *)
Definition declare (h : hid) (v : SharedPtr) (s : state) : option state :=
  match handles s !! h with
  | Some _ => None
  | None => Some (put_handle h v s)
  end.

(** ** Control blocks *)

(** [new ControlBlockPtr<Y>(ptr)] and [new ControlBlockHolder<Y>(args...)]:
    one allocation, [ref_cnt = 1] from the member initializer. *)
Definition new_block (k : ControlBlockKind) (s : state) : loc * state :=
  let b := fresh (dom (blocks s)) in
  (b, emit [EvNewBlock b] (put_block b (mkBlock 1 k) s)).

(** [delete ptr_] for a non-null [Y* ptr_]: runs [~Y] and frees the object.
    Defined only for a pointer to a whole live object. *)
Definition delete_ptr (Y : cls) (p : addr) (s : state) : option state :=
  match p with
  | Obj l O =>
      match objects s !! l with
      | Some _ => Some (emit [EvDtor Y (Obj l 0); EvFreeObj l] (drop_object l s))
      | None => None
      end
  | _ => None
  end.

(** The virtual destructor, dispatched on the block's dynamic class:
    [~ControlBlockPtr] is [if (ptr_) delete ptr_;], [~ControlBlockHolder] is
    [reinterpret_cast<Y*>(&storage_)->~Y();]. *)
Definition destroy_block (b : loc) (k : ControlBlockKind) (s : state) : option state :=
  match k with
  | ControlBlockPtr Y (Some p) => delete_ptr Y p s
  | ControlBlockPtr Y None => Some s
  | ControlBlockHolder Y _ => Some (emit [EvDtor Y (Emb b 0)] s)
  end.

(** [delete control_block_;] *)
Definition delete_control_block (b : loc) (s : state) : option state :=
  cb ← blocks s !! b;
  s1 ← destroy_block b (derived cb) s;
  Some (emit [EvFreeBlock b] (drop_block b s1)).

(** [++control_block_->ref_cnt;] *)
Definition incr_ref_cnt (c : option loc) (s : state) : option state :=
  b ← c;
  cb ← blocks s !! b;
  Some (emit [EvIncr b] (put_block b (with_ref_cnt (wrap (ref_cnt cb + 1)) cb) s)).

(** The release sequence that [~SharedPtr], [Reset()] and [Reset(Y* ptr)] each
    spell out:
[[
    if (control_block_) {
        if (control_block_->ref_cnt == 1) { delete control_block_; }
        else { --control_block_->ref_cnt; }
    }
]] *)
Definition release (c : option loc) (s : state) : option state :=
  match c with
  | None => Some s
  | Some b =>
      cb ← blocks s !! b;
      if decide (ref_cnt cb = 1%Z) then delete_control_block b s
      else Some (emit [EvDecr b] (put_block b (with_ref_cnt (wrap (ref_cnt cb - 1)) cb) s))
  end.

(** ** [SharedPtr]: constructors *)

(** [SharedPtr()] and [SharedPtr(std::nullptr_t)] *)
Definition SharedPtr_default (T : cls) (h : hid) (s : state) : option state :=
  declare h (mkPtr T None None) s.

Definition SharedPtr_nullptr (T : cls) (h : hid) (s : state) : option state :=
  declare h (mkPtr T None None) s.

(** [template <typename Y> explicit SharedPtr(Y* ptr)] *)
Definition SharedPtr_from_ptr (T Y : cls) (h : hid) (ptr : pointer) (s : state) : option state :=
  let '(b, s1) := new_block (ControlBlockPtr Y ptr) s in
  declare h (mkPtr T ptr (Some b)) s1.

(** [SharedPtr(const SharedPtr& other)] and its converting template
    [SharedPtr(const SharedPtr<Y>& other)], which have the same body. *)
Definition SharedPtr_copy (T : cls) (h other : hid) (s : state) : option state :=
  o ← handles s !! other;
  s1 ← declare h (mkPtr T (data_ o) (control_block_ o)) s;
  match control_block_ o with
  | Some _ => incr_ref_cnt (control_block_ o) s1
  | None => Some s1
  end.

(** [SharedPtr(SharedPtr&& other)] and [SharedPtr(SharedPtr<Y>&& other)] *)
Definition SharedPtr_move (T : cls) (h other : hid) (s : state) : option state :=
  o ← handles s !! other;
  s1 ← declare h (mkPtr T (data_ o) (control_block_ o)) s;
  s2 ← set_data_ other None s1;
  set_control_block_ other None s2.

(** The aliasing constructor [SharedPtr(const SharedPtr<Y>& other, T* ptr)]:
    the increment is unconditional. *)
Definition SharedPtr_alias (T : cls) (h other : hid) (ptr : pointer) (s : state) : option state :=
  o ← handles s !! other;
  s1 ← declare h (mkPtr T ptr (control_block_ o)) s;
  incr_ref_cnt (control_block_ o) s1.

(** ** [SharedPtr]: destructor and modifiers *)

(** [~SharedPtr()]; the variable then ceases to exist. *)
Definition SharedPtr_dtor (h : hid) (s : state) : option state :=
  v ← handles s !! h;
  s1 ← release (control_block_ v) s;
  Some (drop_handle h s1).

(** [void Reset()] *)
Definition Reset (h : hid) (s : state) : option state :=
  v ← handles s !! h;
  s1 ← release (control_block_ v) s;
  s2 ← set_data_ h None s1;
  set_control_block_ h None s2.

(** [template <typename Y> void Reset(Y* ptr)] *)
Definition Reset_ptr (Y : cls) (h : hid) (ptr : pointer) (s : state) : option state :=
  v ← handles s !! h;
  s1 ← release (control_block_ v) s;
  s2 ← set_data_ h ptr s1;
  let '(b, s3) := new_block (ControlBlockPtr Y ptr) s2 in
  set_control_block_ h (Some b) s3.

(** [SharedPtr& operator=(const SharedPtr& other)].  [other] is read after
    [this->Reset()], through the store, so that [this] and [other] may be the
    same object. *)
Definition copy_assign (this other : hid) (s : state) : option state :=
  s1 ← Reset this s;
  o1 ← handles s1 !! other;
  s2 ← set_data_ this (data_ o1) s1;
  o2 ← handles s2 !! other;
  s3 ← set_control_block_ this (control_block_ o2) s2;
  t ← handles s3 !! this;
  match control_block_ t with
  | Some _ => incr_ref_cnt (control_block_ t) s3
  | None => Some s3
  end.

(** [SharedPtr& operator=(SharedPtr&& other)] *)
Definition move_assign (this other : hid) (s : state) : option state :=
  s1 ← Reset this s;
  o1 ← handles s1 !! other;
  s2 ← set_data_ this (data_ o1) s1;
  o2 ← handles s2 !! other;
  s3 ← set_control_block_ this (control_block_ o2) s2;
  s4 ← set_data_ other None s3;
  set_control_block_ other None s4.

(** [void Swap(SharedPtr& other)]:
[[
    auto tmp = *this;
    *this = other;
    other = tmp;
]]
    and [tmp] is destroyed at the end of the body. *)
Definition Swap (this other : hid) (s : state) : option state :=
  t ← handles s !! this;
  let tmp := fresh (dom (handles s)) in
  s1 ← SharedPtr_copy (elem t) tmp this s;
  s2 ← copy_assign this other s1;
  s3 ← copy_assign other tmp s2;
  SharedPtr_dtor tmp s3.

(** ** [SharedPtr]: observers *)

(** [T* Get() const] *)
Definition Get (v : SharedPtr) : pointer := data_ v.

(** Reading memory at an address. *)
Definition load (s : state) (a : addr) : option Z :=
  match a with
  | Obj l off => o ← objects s !! l; o !! off
  | Emb b off =>
      cb ← blocks s !! b;
      match derived cb with
      | ControlBlockHolder _ st => st !! off
      | ControlBlockPtr _ _ => None
      end
  end.

(** [T& operator*() const], read as an rvalue. *)
Definition deref (s : state) (v : SharedPtr) : option Z :=
  a ← data_ v; load s a.

(** [size_t UseCount() const] *)
Definition UseCount (s : state) (v : SharedPtr) : option Z :=
  match control_block_ v with
  | Some b => cb ← blocks s !! b; Some (ref_cnt cb)
  | None => Some 0%Z
  end.

(** [explicit operator bool() const] *)
Definition operator_bool (v : SharedPtr) : bool :=
  match data_ v with
  | Some _ => true
  | None => false
  end.

(** ** [MakeShared] *)

(** [MakeShared<Y>(args...)], with [ctor] the constructor of [Y] that the
    arguments select: it gives the members of the constructed object.  The
    local [shared_ptr] is the returned object [h]. *)
Definition MakeShared (Y : cls) (ctor : list Z → list Z) (h : hid) (args : list Z)
    (s : state) : option state :=
  s1 ← SharedPtr_default Y h s;
  let '(block, s2) := new_block (ControlBlockHolder Y (ctor args)) s1 in
  s3 ← set_control_block_ h (Some block) s2;
  set_data_ h (Some (Emb block 0)) s3.

(** ** Releasing handles one after another *)

(** The two ways a handle gives up its reference that the lifecycle speaks
    of: it is destroyed, or it is reset. *)
Inductive releaser :=
  | ByDestructor (h : hid)
  | ByReset (h : hid).

Definition releaser_handle (r : releaser) : hid :=
  match r with ByDestructor h | ByReset h => h end.

Definition relinquish (r : releaser) (s : state) : option state :=
  match r with
  | ByDestructor h => SharedPtr_dtor h s
  | ByReset h => Reset h s
  end.

Fixpoint relinquish_all (rs : list releaser) (s : state) : option state :=
  match rs with
  | [] => Some s
  | r :: rs' => s1 ← relinquish r s; relinquish_all rs' s1
  end.

(** Handle [h] exists and holds control block [b]. *)
Definition refers (s : state) (h : hid) (b : loc) : Prop :=
  ∃ v, handles s !! h = Some v ∧ control_block_ v = Some b.

(** What the block's destructor does to the payload, as trace events. *)
Definition destroy_events (b : loc) (k : ControlBlockKind) : list event :=
  match k with
  | ControlBlockPtr Y (Some (Obj l O)) => [EvDtor Y (Obj l 0); EvFreeObj l]
  | ControlBlockPtr Y _ => []
  | ControlBlockHolder Y _ => [EvDtor Y (Emb b 0)]
  end.

(** The payload of the block can be destroyed: a pointer-owning block holds
    null or a whole object that is still alive. *)
Definition payload_live (s : state) (k : ControlBlockKind) : Prop :=
  match k with
  | ControlBlockPtr Y (Some (Obj l O)) => is_Some (objects s !! l)
  | ControlBlockPtr Y (Some _) => False
  | ControlBlockPtr Y None => True
  | ControlBlockHolder Y _ => True
  end.

(** The objects left once the payload is destroyed. *)
Definition objects_after (k : ControlBlockKind) (m : gmap nat (list Z)) : gmap nat (list Z) :=
  match k with
  | ControlBlockPtr Y (Some (Obj l O)) => delete l m
  | _ => m
  end.

(** Number of times the storage of block [b] is returned in a trace, and
    number of destructor runs in it. *)
Definition frees_of (b : loc) (tr : list event) : nat :=
  length (filter (λ e, e = EvFreeBlock b) tr).

Definition is_dtor (e : event) : bool :=
  match e with EvDtor _ _ => true | _ => false end.

Definition dtor_runs (tr : list event) : nat :=
  length (filter (λ e, is_dtor e = true) tr).

Definition is_alloc (e : event) : bool :=
  match e with EvNewBlock _ | EvNewObj _ => true | _ => false end.

Definition allocations (tr : list event) : nat :=
  length (filter (λ e, is_alloc e = true) tr).

Definition is_incr (e : event) : bool :=
  match e with EvIncr _ => true | _ => false end.

Definition increments (tr : list event) : nat :=
  length (filter (λ e, is_incr e = true) tr).

Definition is_count_update (e : event) : bool :=
  match e with EvIncr _ | EvDecr _ => true | _ => false end.

(** ** Count updates that keep the block *)

(** The count of the block that [c] designates, moved by [d]; a null [c]
    designates nothing. *)
Definition bump (c : option loc) (d : Z) (m : gmap nat ControlBlockBase)
    : gmap nat ControlBlockBase :=
  match c with
  | Some b => alter (λ cb, with_ref_cnt (ref_cnt cb + d) cb) b m
  | None => m
  end.

(** [c] is null, or designates a live block whose count lies in [[lo, hi]]. *)
Definition has_count (m : gmap nat ControlBlockBase) (c : option loc) (lo hi : Z) : Prop :=
  match c with
  | Some b => ∃ cb, m !! b = Some cb ∧ (lo ≤ ref_cnt cb ≤ hi)%Z
  | None => True
  end.

Definition incr_events (c : option loc) : list event :=
  match c with Some b => [EvIncr b] | None => [] end.

Definition decr_events (c : option loc) : list event :=
  match c with Some b => [EvDecr b] | None => [] end.

(** ** Programs over handles *)

(** What client code can do with the header: allocate an object with [new],
    and call the constructors, the destructor, the assignment operators, the
    modifiers and the factory on handle variables. *)
Inductive call :=
  | CallNew (v : list Z)
  | CallDefault (T : cls) (h : hid)
  | CallNullptr (T : cls) (h : hid)
  | CallFromPtr (T Y : cls) (h : hid) (ptr : pointer)
  | CallCopy (T : cls) (h other : hid)
  | CallMove (T : cls) (h other : hid)
  | CallAlias (T : cls) (h other : hid) (ptr : pointer)
  | CallCopyAssign (this other : hid)
  | CallMoveAssign (this other : hid)
  | CallDtor (h : hid)
  | CallReset (h : hid)
  | CallResetPtr (Y : cls) (h : hid) (ptr : pointer)
  | CallSwap (this other : hid)
  | CallMakeShared (Y : cls) (ctor : list Z → list Z) (h : hid) (args : list Z).

(** [new Y{...}] in client code. *)
Definition new_object (v : list Z) (s : state) : state :=
  let l := fresh (dom (objects s)) in
  emit [EvNewObj l] (put_object l v s).

Definition exec (c : call) (s : state) : option state :=
  match c with
  | CallNew v => Some (new_object v s)
  | CallDefault T h => SharedPtr_default T h s
  | CallNullptr T h => SharedPtr_nullptr T h s
  | CallFromPtr T Y h ptr => SharedPtr_from_ptr T Y h ptr s
  | CallCopy T h other => SharedPtr_copy T h other s
  | CallMove T h other => SharedPtr_move T h other s
  | CallAlias T h other ptr => SharedPtr_alias T h other ptr s
  | CallCopyAssign this other => copy_assign this other s
  | CallMoveAssign this other => move_assign this other s
  | CallDtor h => SharedPtr_dtor h s
  | CallReset h => Reset h s
  | CallResetPtr Y h ptr => Reset_ptr Y h ptr s
  | CallSwap this other => Swap this other s
  | CallMakeShared Y ctor h args => MakeShared Y ctor h args s
  end.

(** A [SharedPtr] is two 8-byte pointers, so a 64-bit address space holds
    fewer than [2^60] of them; a call starts only in a state that fits. *)
Definition MAX_HANDLES : Z := (2 ^ 60)%Z.

Definition fits (s : state) : Prop := (Z.of_nat (size (handles s)) < MAX_HANDLES)%Z.

#[global] Instance fits_dec s : Decision (fits s).
Proof. unfold fits. apply _. Defined.

Fixpoint run (cs : list call) (s : state) : option state :=
  match cs with
  | [] => Some s
  | c :: cs' =>
      if decide (fits s) then s1 ← exec c s; run cs' s1 else None
  end.

(** ** The counting invariant *)

(** Number of handles that hold block [b]. *)
Definition refs (hs : gmap nat SharedPtr) (b : loc) : nat :=
  size (filter (λ kv : nat * SharedPtr, control_block_ kv.2 = Some b) hs).

(** The count stored for [b]; 0 when there is no such block. *)
Definition cnt (bs : gmap nat ControlBlockBase) (b : loc) : Z :=
  match bs !! b with Some cb => ref_cnt cb | None => 0%Z end.

Definition ind (c : option loc) (b : loc) : nat :=
  if decide (c = Some b) then 1 else 0.

(** The block that variable [h] holds, if the variable exists and holds one. *)
Definition held (hs : gmap nat SharedPtr) (h : hid) : option loc :=
  hs !! h ≫= control_block_.

(** Every count is the number of handles of its block (so a block that a
    handle holds is alive), and a handle without block has null data. *)
Record inv (s : state) : Prop := mkInv {
  inv_cnt : ∀ b, cnt (blocks s) b = Z.of_nat (refs (handles s) b);
  inv_data : map_Forall (λ _ v, control_block_ v = None → data_ v = None) (handles s)
}.

(** ** Sample states *)

(** Two [SharedPtr<int>] variables sharing the pointer-owning block of one
    [int] object, as after [SharedPtr<int> a(new int(32)); SharedPtr b(a);]. *)
Definition two_owners : state :=
  mkState {[0 := mkPtr "int" (Some (Obj 7 0)) (Some 0);
            1 := mkPtr "int" (Some (Obj 7 0)) (Some 0)]}
          {[0 := mkBlock 2 (ControlBlockPtr "int" (Some (Obj 7 0)))]}
          {[7 := [32%Z]]}
          [EvNewBlock 0; EvIncr 0].

(** One live object that no handle owns yet, as after [new Derived]. *)
Definition one_object : state := mkState ∅ ∅ {[7 := [1%Z]]} [].

(** A [Data{42, 314}] object owned by one [SharedPtr<Data>], as after
    [SharedPtr<Data> sp(new Data{...});]. *)
Definition data_owner : state :=
  mkState {[0 := mkPtr "Data" (Some (Obj 7 0)) (Some 0)]}
          {[0 := mkBlock 1 (ControlBlockPtr "Data" (Some (Obj 7 0)))]}
          {[7 := [42; 314]%Z]}
          [EvNewBlock 0].

(** A [SharedPtr<C>] owning an object alone and an empty [SharedPtr<C>]. *)
Definition owner_and_empty : state :=
  mkState {[0 := mkPtr "C" (Some (Obj 7 0)) (Some 0); 1 := mkPtr "C" None None]}
          {[0 := mkBlock 1 (ControlBlockPtr "C" (Some (Obj 7 0)))]}
          {[7 := [1%Z]]}
          [EvNewBlock 0].

(** A program that makes a pair with the factory and copies the handle, and
    the state it reaches. *)
Definition pair_program : list call :=
  [CallMakeShared "Pair" (λ args, args) 0 [3; 4]%Z; CallCopy "Pair" 1 0].

Definition pair_shared : state :=
  mkState {[0 := mkPtr "Pair" (Some (Emb 0 0)) (Some 0);
            1 := mkPtr "Pair" (Some (Emb 0 0)) (Some 0)]}
          {[0 := mkBlock 2 (ControlBlockHolder "Pair" [3; 4]%Z)]}
          ∅
          [EvNewBlock 0; EvIncr 0].


Definition two_blocks : state :=
  mkState {[0 := mkPtr "Pair" (Some (Emb 0 0)) (Some 0);
            1 := mkPtr "Pair" None (Some 1)]}
          {[0 := mkBlock 1 (ControlBlockHolder "Pair" [3; 4]%Z);
            1 := mkBlock 1 (ControlBlockPtr "Pair" None)]}
          ∅
          [EvNewBlock 0; EvNewBlock 1].

(** A program that allocates an [int] and adopts it, and the state it
    reaches. *)
Definition int_owner_program : list call :=
  [CallNew [42%Z]; CallFromPtr "int" "int" 0 (Some (Obj 0 0))].

Definition int_owner : state :=
  mkState {[0 := mkPtr "int" (Some (Obj 0 0)) (Some 0)]}
          {[0 := mkBlock 1 (ControlBlockPtr "int" (Some (Obj 0 0)))]}
          {[0 := [42%Z]]}
          [EvNewObj 0; EvNewBlock 0].

(** ** Calls as sequences of primitive updates *)

(** [steps n s s']: state [s'] comes from [s] by assignments to handle
    fields, releases, increments of a live count below [SIZE_MAX], and [n]
    allocations ([new] of a control block or of an object). *)
Inductive steps : nat → state → state → Prop :=
  | steps_done s : steps 0 s s
  | steps_handles n s hs s' :
      steps n (mkState hs (blocks s) (objects s) (trace s)) s' → steps n s s'
  | steps_release n s c s1 s' :
      release c s = Some s1 → steps n s1 s' → steps n s s'
  | steps_incr n s b cb s1 s' :
      blocks s !! b = Some cb → (ref_cnt cb < SIZE_MAX)%Z →
      incr_ref_cnt (Some b) s = Some s1 → steps n s1 s' → steps n s s'
  | steps_new_block n s k s' :
      steps n (new_block k s).2 s' → steps (S n) s s'
  | steps_new_object n s v s' :
      steps n (new_object v s) s' → steps (S n) s s'.

(** Allocations that a call performs when it is defined. *)
Definition allocs_of (c : call) : nat :=
  match c with
  | CallNew _ | CallFromPtr _ _ _ _ | CallResetPtr _ _ _
  | CallMakeShared _ _ _ _ => 1
  | _ => 0
  end.

(** Every stored count is a [size_t] of at least 1. *)
Definition counts_positive (bs : gmap nat ControlBlockBase) : Prop :=
  map_Forall (λ _ cb, (1 ≤ ref_cnt cb ≤ SIZE_MAX)%Z) bs.

(** Number of times a block is allocated at location [b] in a trace. *)
Definition news_of (b : loc) (tr : list event) : nat :=
  length (filter (λ e, e = EvNewBlock b) tr).

(** At every location, the allocations exceed the deallocations by one if a
    block is alive there, and match them otherwise. *)
Definition balanced (s : state) : Prop :=
  ∀ b, news_of b (trace s)
       = frees_of b (trace s) + (if blocks s !! b is Some _ then 1 else 0).

(** Number of times the storage of an object is returned in a trace. *)
Definition is_free_obj (e : event) : bool :=
  match e with EvFreeObj _ => true | _ => false end.

Definition object_frees (tr : list event) : nat :=
  length (filter (λ e, is_free_obj e = true) tr).


(** * Part II: facts about the operations *)

(** Side conditions about lookups in updated stores. *)
Ltac store_lookup :=
  simpl;
  repeat first
    [ rewrite lookup_insert_eq
    | rewrite lookup_delete_eq
    | rewrite lookup_insert_ne by congruence
    | rewrite lookup_delete_ne by congruence ];
  try done.

(** Closes the per-block bookkeeping once counts and handle sets are
    expressed through the state before the call. *)
Ltac delta_solve :=
  unfold ind; repeat case_decide; simplify_eq; lia.

(** ** Basic facts *)

#[global] Arguments release : simpl never.
#[global] Arguments incr_ref_cnt : simpl never.
#[global] Arguments delete_control_block : simpl never.
#[global] Arguments wrap : simpl never.

Lemma wrap_id (z : Z) : (0 ≤ z ≤ SIZE_MAX)%Z → wrap z = z.
Proof. unfold wrap, SIZE_MAX. intros. apply Z.mod_small. lia. Qed.

Lemma destroy_block_live b k s :
  payload_live s k →
  destroy_block b k s
  = Some (mkState (handles s) (blocks s) (objects_after k (objects s))
            (trace s ++ destroy_events b k)).
Proof.
  destruct s as [hs bs os tr].
  destruct k as [Y [[l [|off]|b' off]|]|Y st]; simpl; try done.
  - intros [o ->]. done.
  - intros _. by rewrite app_nil_r.
Qed.

Lemma release_last b cb s :
  blocks s !! b = Some cb →
  ref_cnt cb = 1%Z →
  payload_live s (derived cb) →
  release (Some b) s
  = Some (mkState (handles s) (delete b (blocks s))
            (objects_after (derived cb) (objects s))
            (trace s ++ destroy_events b (derived cb) ++ [EvFreeBlock b])).
Proof.
  intros Hb H1 Hl. unfold release. rewrite Hb. simpl.
  rewrite decide_True by done.
  unfold delete_control_block. rewrite Hb. simpl.
  rewrite destroy_block_live by done. simpl.
  unfold emit, drop_block. simpl. by rewrite <- app_assoc.
Qed.

Lemma release_shared b cb s :
  blocks s !! b = Some cb →
  (2 ≤ ref_cnt cb ≤ SIZE_MAX)%Z →
  release (Some b) s
  = Some (mkState (handles s) (<[b := with_ref_cnt (ref_cnt cb - 1) cb]> (blocks s))
            (objects s) (trace s ++ [EvDecr b])).
Proof.
  intros Hb Hc. unfold release. rewrite Hb. simpl.
  rewrite decide_False by lia.
  rewrite wrap_id by lia. done.
Qed.

Lemma incr_ref_cnt_live b cb s :
  blocks s !! b = Some cb →
  (0 ≤ ref_cnt cb < SIZE_MAX)%Z →
  incr_ref_cnt (Some b) s
  = Some (mkState (handles s) (<[b := with_ref_cnt (ref_cnt cb + 1) cb]> (blocks s))
            (objects s) (trace s ++ [EvIncr b])).
Proof.
  intros Hb Hc. unfold incr_ref_cnt. simpl. rewrite Hb. simpl.
  rewrite wrap_id by lia. done.
Qed.

Lemma with_ref_cnt_same cb : with_ref_cnt (ref_cnt cb) cb = cb.
Proof. by destruct cb. Qed.

(** A release that finds a count of at least two only decrements. *)
Lemma relinquish_shared r s b cb :
  refers s (releaser_handle r) b →
  blocks s !! b = Some cb →
  (2 ≤ ref_cnt cb ≤ SIZE_MAX)%Z →
  ∃ s', relinquish r s = Some s'
    ∧ blocks s' = <[b := with_ref_cnt (ref_cnt cb - 1) cb]> (blocks s)
    ∧ objects s' = objects s
    ∧ trace s' = trace s ++ [EvDecr b]
    ∧ ∀ h', h' ≠ releaser_handle r → handles s' !! h' = handles s !! h'.
Proof.
  intros (v & Hv & Hc) Hb Hn.
  destruct r as [h|h]; simpl in *.
  - unfold SharedPtr_dtor. rewrite Hv. simpl. rewrite Hc.
    rewrite (release_shared b cb) by done. simpl.
    eexists. split; [done|]. simpl. repeat split.
    intros h' Hne. by rewrite lookup_delete_ne.
  - unfold Reset. rewrite Hv. simpl. rewrite Hc.
    rewrite (release_shared b cb) by done. simpl.
    unfold set_data_. simpl. rewrite Hv. simpl.
    unfold set_control_block_. simpl. rewrite lookup_insert_eq. simpl.
    eexists. split; [done|]. simpl. repeat split.
    intros h' Hne. by rewrite !lookup_insert_ne.
Qed.

(** A release that finds a count of one destroys the block and its payload. *)
Lemma relinquish_last r s b cb :
  refers s (releaser_handle r) b →
  blocks s !! b = Some cb →
  ref_cnt cb = 1%Z →
  payload_live s (derived cb) →
  ∃ s', relinquish r s = Some s'
    ∧ blocks s' = delete b (blocks s)
    ∧ objects s' = objects_after (derived cb) (objects s)
    ∧ trace s' = trace s ++ destroy_events b (derived cb) ++ [EvFreeBlock b]
    ∧ ∀ h', h' ≠ releaser_handle r → handles s' !! h' = handles s !! h'.
Proof.
  intros (v & Hv & Hc) Hb Hn Hl.
  destruct r as [h|h]; simpl in *.
  - unfold SharedPtr_dtor. rewrite Hv. simpl. rewrite Hc.
    rewrite (release_last b cb) by done. simpl.
    eexists. split; [done|]. simpl. repeat split.
    intros h' Hne. by rewrite lookup_delete_ne.
  - unfold Reset. rewrite Hv. simpl. rewrite Hc.
    rewrite (release_last b cb) by done. simpl.
    unfold set_data_. simpl. rewrite Hv. simpl.
    unfold set_control_block_. simpl. rewrite lookup_insert_eq. simpl.
    eexists. split; [done|]. simpl. repeat split.
    intros h' Hne. by rewrite !lookup_insert_ne.
Qed.

Lemma refers_frame s s' h b :
  handles s' !! h = handles s !! h → refers s h b → refers s' h b.
Proof. intros Heq (v & Hv & Hc). exists v. by rewrite Heq. Qed.

(** Fewer releases than the count says: the block survives them all. *)
Lemma relinquish_siblings b rs : ∀ s cb,
  blocks s !! b = Some cb →
  NoDup (releaser_handle <$> rs) →
  Forall (λ r, refers s (releaser_handle r) b) rs →
  (Z.of_nat (length rs) < ref_cnt cb ≤ SIZE_MAX)%Z →
  ∃ s', relinquish_all rs s = Some s'
    ∧ blocks s' = <[b := with_ref_cnt (ref_cnt cb - Z.of_nat (length rs)) cb]> (blocks s)
    ∧ objects s' = objects s
    ∧ trace s' = trace s ++ replicate (length rs) (EvDecr b)
    ∧ ∀ h', h' ∉ releaser_handle <$> rs → handles s' !! h' = handles s !! h'.
Proof.
  induction rs as [|r rs IH]; intros s cb Hb Hnd Hall Hn.
  - exists s. simpl. rewrite Z.sub_0_r, with_ref_cnt_same, insert_id by done.
    by rewrite app_nil_r.
  - rewrite fmap_cons in Hnd. apply NoDup_cons in Hnd as [Hnotin Hnd].
    apply Forall_cons in Hall as [Hr Hall].
    simpl length in Hn.
    destruct (relinquish_shared r s b cb) as (s1 & E1 & B1 & O1 & T1 & F1);
      [done|done|lia|].
    destruct (IH s1 (with_ref_cnt (ref_cnt cb - 1) cb)) as (s' & E & B & O & T & F).
    + by rewrite B1, lookup_insert_eq.
    + done.
    + apply Forall_forall. intros r' Hin.
      eapply refers_frame; [|by eapply Forall_forall in Hall].
      apply F1. intros Heq. apply Hnotin. rewrite <- Heq.
      by apply list_elem_of_fmap_2.
    + simpl. lia.
    + exists s'. simpl relinquish_all. rewrite E1. simpl. split; [done|].
      split; [|split; [|split]].
      * rewrite B, B1, insert_insert_eq. simpl. f_equal. unfold with_ref_cnt. simpl.
        f_equal. lia.
      * congruence.
      * rewrite T, T1, <- app_assoc. done.
      * intros h' Hh'. apply not_elem_of_cons in Hh' as [? ?].
        rewrite F by done. by apply F1.
Qed.

(** As many releases as the count says: the last one destroys the block. *)
Lemma relinquish_everyone b rs : ∀ s cb,
  blocks s !! b = Some cb →
  payload_live s (derived cb) →
  NoDup (releaser_handle <$> rs) →
  Forall (λ r, refers s (releaser_handle r) b) rs →
  rs ≠ [] →
  ref_cnt cb = Z.of_nat (length rs) →
  (ref_cnt cb ≤ SIZE_MAX)%Z →
  ∃ s', relinquish_all rs s = Some s'
    ∧ blocks s' = delete b (blocks s)
    ∧ objects s' = objects_after (derived cb) (objects s)
    ∧ trace s' = trace s ++ replicate (length rs - 1) (EvDecr b)
                 ++ destroy_events b (derived cb) ++ [EvFreeBlock b]
    ∧ ∀ h', h' ∉ releaser_handle <$> rs → handles s' !! h' = handles s !! h'.
Proof.
  induction rs as [|r rs IH]; intros s cb Hb Hl Hnd Hall Hne Hn Hmax; [done|].
  rewrite fmap_cons in Hnd. apply NoDup_cons in Hnd as [Hnotin Hnd].
  apply Forall_cons in Hall as [Hr Hall].
  destruct rs as [|r2 rs].
  - destruct (relinquish_last r s b cb) as (s' & E & B & O & T & F); [done..|].
    exists s'. simpl. rewrite E. simpl. repeat split; try done.
    intros h' Hh'. apply F. intros ->. apply Hh'. simpl. apply list_elem_of_here.
  - set (rs' := r2 :: rs) in *.
    assert (Hlen : length (r :: rs') = S (S (length rs))) by done.
    destruct (relinquish_shared r s b cb) as (s1 & E1 & B1 & O1 & T1 & F1);
      [done|done|lia|].
    destruct (IH s1 (with_ref_cnt (ref_cnt cb - 1) cb)) as (s' & E & B & O & T & F).
    + by rewrite B1, lookup_insert_eq.
    + simpl. unfold payload_live in *. by rewrite O1.
    + done.
    + apply Forall_forall. intros r' Hin.
      eapply refers_frame; [|by eapply Forall_forall in Hall].
      apply F1. intros Heq. apply Hnotin. rewrite <- Heq.
      by apply list_elem_of_fmap_2.
    + done.
    + simpl. subst rs'. simpl length in *. lia.
    + simpl. lia.
    + exists s'. simpl relinquish_all. rewrite E1. simpl. split; [done|].
      split; [|split; [|split]].
      * by rewrite B, B1, delete_insert_eq.
      * rewrite O, O1. done.
      * rewrite T, T1, <- app_assoc. simpl derived. subst rs'. simpl.
        by rewrite Nat.sub_0_r.
      * intros h' Hh'. apply not_elem_of_cons in Hh' as [? ?].
        rewrite F by done. by apply F1.
Qed.

Lemma frees_of_app b l1 l2 : frees_of b (l1 ++ l2) = frees_of b l1 + frees_of b l2.
Proof. unfold frees_of. by rewrite filter_app, length_app. Qed.

Lemma frees_of_replicate_decr b b' n : frees_of b (replicate n (EvDecr b')) = 0.
Proof.
  unfold frees_of. induction n as [|n IH]; [done|]. simpl.
  rewrite filter_cons_False; [done | discriminate].
Qed.

Lemma frees_of_destroy_events b b' k : frees_of b (destroy_events b' k) = 0.
Proof.
  unfold frees_of.
  by destruct k as [Y [[l [|off]|b2 off]|]|Y st].
Qed.

Lemma frees_of_one b : frees_of b [EvFreeBlock b] = 1.
Proof. unfold frees_of. by rewrite filter_cons_True. Qed.

Lemma dtor_runs_app l1 l2 : dtor_runs (l1 ++ l2) = dtor_runs l1 + dtor_runs l2.
Proof. unfold dtor_runs. by rewrite filter_app, length_app. Qed.

Lemma dtor_runs_replicate_decr b n : dtor_runs (replicate n (EvDecr b)) = 0.
Proof.
  unfold dtor_runs. induction n as [|n IH]; [done|]. simpl.
  rewrite filter_cons_False; [done | discriminate].
Qed.

Lemma fresh_block_unused (m : gmap nat ControlBlockBase) : m !! fresh (dom m) = None.
Proof. apply not_elem_of_dom, is_fresh. Qed.

(** ** The constructors and the destructor as equations *)

Lemma SharedPtr_from_ptr_eq s T Y h ptr :
  handles s !! h = None →
  SharedPtr_from_ptr T Y h ptr s
  = Some (mkState (<[h := mkPtr T ptr (Some (fresh (dom (blocks s))))]> (handles s))
            (<[fresh (dom (blocks s)) := mkBlock 1 (ControlBlockPtr Y ptr)]> (blocks s))
            (objects s)
            (trace s ++ [EvNewBlock (fresh (dom (blocks s)))])).
Proof.
  intros Hh. unfold SharedPtr_from_ptr, new_block, declare. simpl. by rewrite Hh.
Qed.

Lemma SharedPtr_copy_eq s T h src v b cb :
  handles s !! src = Some v →
  control_block_ v = Some b →
  blocks s !! b = Some cb →
  (0 ≤ ref_cnt cb < SIZE_MAX)%Z →
  handles s !! h = None →
  SharedPtr_copy T h src s
  = Some (mkState (<[h := mkPtr T (data_ v) (Some b)]> (handles s))
            (<[b := with_ref_cnt (ref_cnt cb + 1) cb]> (blocks s))
            (objects s) (trace s ++ [EvIncr b])).
Proof.
  intros Hv Hc Hb Hn Hh.
  unfold SharedPtr_copy, declare. rewrite Hv. simpl. rewrite Hh. simpl.
  rewrite Hc. by rewrite (incr_ref_cnt_live b cb).
Qed.

Lemma SharedPtr_move_eq s T h src v :
  handles s !! src = Some v →
  handles s !! h = None →
  SharedPtr_move T h src s
  = Some (mkState (<[src := mkPtr (elem v) None None]>
                     (<[h := mkPtr T (data_ v) (control_block_ v)]> (handles s)))
            (blocks s) (objects s) (trace s)).
Proof.
  intros Hv Hh. assert (h ≠ src) by congruence.
  unfold SharedPtr_move, declare. rewrite Hv. simpl. rewrite Hh. simpl.
  unfold set_data_. simpl. rewrite lookup_insert_ne, Hv by done. simpl.
  unfold set_control_block_. simpl. rewrite lookup_insert_eq. simpl.
  unfold put_handle. simpl. by rewrite insert_insert_eq.
Qed.

Lemma SharedPtr_alias_eq s T h src ptr v b cb :
  handles s !! src = Some v →
  control_block_ v = Some b →
  blocks s !! b = Some cb →
  (0 ≤ ref_cnt cb < SIZE_MAX)%Z →
  handles s !! h = None →
  SharedPtr_alias T h src ptr s
  = Some (mkState (<[h := mkPtr T ptr (Some b)]> (handles s))
            (<[b := with_ref_cnt (ref_cnt cb + 1) cb]> (blocks s))
            (objects s) (trace s ++ [EvIncr b])).
Proof.
  intros Hv Hc Hb Hn Hh.
  unfold SharedPtr_alias, declare. rewrite Hv. simpl. rewrite Hh. simpl.
  rewrite Hc. by rewrite (incr_ref_cnt_live b cb).
Qed.

Lemma SharedPtr_dtor_shared_eq s h v b cb :
  handles s !! h = Some v →
  control_block_ v = Some b →
  blocks s !! b = Some cb →
  (2 ≤ ref_cnt cb ≤ SIZE_MAX)%Z →
  SharedPtr_dtor h s
  = Some (mkState (delete h (handles s))
            (<[b := with_ref_cnt (ref_cnt cb - 1) cb]> (blocks s))
            (objects s) (trace s ++ [EvDecr b])).
Proof.
  intros Hv Hc Hb Hn. unfold SharedPtr_dtor. rewrite Hv. simpl. rewrite Hc.
  by rewrite (release_shared b cb).
Qed.

Lemma SharedPtr_dtor_last_eq s h v b cb :
  handles s !! h = Some v →
  control_block_ v = Some b →
  blocks s !! b = Some cb →
  ref_cnt cb = 1%Z →
  payload_live s (derived cb) →
  SharedPtr_dtor h s
  = Some (mkState (delete h (handles s)) (delete b (blocks s))
            (objects_after (derived cb) (objects s))
            (trace s ++ destroy_events b (derived cb) ++ [EvFreeBlock b])).
Proof.
  intros Hv Hc Hb Hn Hl. unfold SharedPtr_dtor. rewrite Hv. simpl. rewrite Hc.
  by rewrite (release_last b cb).
Qed.

Lemma SharedPtr_dtor_empty_eq s h v :
  handles s !! h = Some v →
  control_block_ v = None →
  SharedPtr_dtor h s = Some (drop_handle h s).
Proof. intros Hv Hc. unfold SharedPtr_dtor. rewrite Hv. simpl. by rewrite Hc. Qed.

Lemma load_frame s s' a :
  objects s' = objects s →
  (∀ b, derived <$> blocks s' !! b = derived <$> blocks s !! b) →
  load s' a = load s a.
Proof.
  intros Ho Hb. destruct a as [l off|b off]; simpl.
  - by rewrite Ho.
  - specialize (Hb b).
    destruct (blocks s' !! b) as [cb'|], (blocks s !! b) as [cb|]; simpl in *;
      try done.
    by injection Hb as ->.
Qed.

(** ** Releases and acquisitions that keep the block *)

Lemma alter_lookup_insert {A} (f : A → A) (m : gmap nat A) i x :
  m !! i = Some x → alter f i m = <[i := f x]> m.
Proof.
  intros Hx. apply map_eq. intros j. destruct (decide (i = j)) as [->|Hne].
  - by rewrite lookup_alter_eq, lookup_insert_eq, Hx.
  - by rewrite lookup_alter_ne, lookup_insert_ne.
Qed.

Lemma release_keep_eq s c :
  has_count (blocks s) c 2 SIZE_MAX →
  release c s
  = Some (mkState (handles s) (bump c (-1) (blocks s)) (objects s)
            (trace s ++ decr_events c)).
Proof.
  destruct c as [b|]; simpl.
  - intros (cb & Hb & Hn). rewrite (release_shared b cb) by done.
    by rewrite (alter_lookup_insert _ _ _ cb).
  - intros _. unfold release. rewrite app_nil_r. by destruct s.
Qed.

Lemma incr_keep_eq s c :
  has_count (blocks s) c 0 (SIZE_MAX - 1) →
  match c with Some _ => incr_ref_cnt c s | None => Some s end
  = Some (mkState (handles s) (bump c 1 (blocks s)) (objects s)
            (trace s ++ incr_events c)).
Proof.
  destruct c as [b|]; simpl.
  - intros (cb & Hb & Hn). rewrite (incr_ref_cnt_live b cb) by (done || lia).
    by rewrite (alter_lookup_insert _ _ _ cb).
  - intros _. rewrite app_nil_r. by destruct s.
Qed.

Lemma has_count_bump m c lo hi d :
  has_count m c lo hi → has_count (bump c d m) c (lo + d) (hi + d).
Proof.
  destruct c as [b|]; simpl; [|done].
  intros (cb & Hb & Hn). eexists. rewrite lookup_alter_eq, Hb. simpl.
  split; [done|]. simpl. lia.
Qed.

Lemma has_count_weaken m c lo hi lo' hi' :
  (lo' ≤ lo)%Z → (hi ≤ hi')%Z → has_count m c lo hi → has_count m c lo' hi'.
Proof.
  intros ??. destruct c as [b|]; simpl; [|done].
  intros (cb & Hb & Hn). exists cb. split; [done|lia].
Qed.

Lemma bump_cancel m c lo hi :
  has_count m c lo hi → bump c (-1) (bump c 1 m) = m.
Proof.
  destruct c as [b|]; simpl; [|done].
  intros (cb & Hb & _). apply map_eq. intros j.
  destruct (decide (b = j)) as [->|Hne].
  - rewrite !lookup_alter_eq, Hb. simpl. f_equal.
    destruct cb as [n k]. unfold with_ref_cnt. simpl. f_equal. lia.
  - by rewrite !lookup_alter_ne.
Qed.

Lemma SharedPtr_copy_keep_eq s T h src v :
  handles s !! src = Some v →
  has_count (blocks s) (control_block_ v) 0 (SIZE_MAX - 1) →
  handles s !! h = None →
  SharedPtr_copy T h src s
  = Some (mkState (<[h := mkPtr T (data_ v) (control_block_ v)]> (handles s))
            (bump (control_block_ v) 1 (blocks s)) (objects s)
            (trace s ++ incr_events (control_block_ v))).
Proof.
  intros Hv Hn Hh. unfold SharedPtr_copy, declare. rewrite Hv. simpl.
  rewrite Hh. simpl. by rewrite incr_keep_eq.
Qed.

Lemma SharedPtr_dtor_keep_eq s h v :
  handles s !! h = Some v →
  has_count (blocks s) (control_block_ v) 2 SIZE_MAX →
  SharedPtr_dtor h s
  = Some (mkState (delete h (handles s)) (bump (control_block_ v) (-1) (blocks s))
            (objects s) (trace s ++ decr_events (control_block_ v))).
Proof.
  intros Hv Hn. unfold SharedPtr_dtor. rewrite Hv. simpl.
  by rewrite release_keep_eq.
Qed.

Lemma Reset_keep_eq s h v :
  handles s !! h = Some v →
  has_count (blocks s) (control_block_ v) 2 SIZE_MAX →
  Reset h s
  = Some (mkState (<[h := mkPtr (elem v) None None]> (handles s))
            (bump (control_block_ v) (-1) (blocks s))
            (objects s) (trace s ++ decr_events (control_block_ v))).
Proof.
  intros Hv Hn. unfold Reset. rewrite Hv. simpl.
  rewrite release_keep_eq by done. simpl.
  unfold set_data_. simpl. rewrite Hv. simpl.
  unfold set_control_block_. simpl. rewrite lookup_insert_eq. simpl.
  unfold put_handle. simpl. by rewrite insert_insert_eq.
Qed.

(** Assignment after [Reset()] has emptied [this]. *)
Lemma assign_fields_eq s this other e o :
  handles s !! this = Some (mkPtr e None None) →
  handles s !! other = Some o →
  this ≠ other →
  has_count (blocks s) (control_block_ o) 0 (SIZE_MAX - 1) →
  (o1 ← handles s !! other;
   s2 ← set_data_ this (data_ o1) s;
   o2 ← handles s2 !! other;
   s3 ← set_control_block_ this (control_block_ o2) s2;
   t ← handles s3 !! this;
   match control_block_ t with
   | Some _ => incr_ref_cnt (control_block_ t) s3
   | None => Some s3
   end)
  = Some (mkState (<[this := mkPtr e (data_ o) (control_block_ o)]> (handles s))
            (bump (control_block_ o) 1 (blocks s)) (objects s)
            (trace s ++ incr_events (control_block_ o))).
Proof.
  intros Ht Ho Hne Hn. rewrite Ho. simpl.
  unfold set_data_. rewrite Ht. simpl.
  rewrite lookup_insert_ne, Ho by done. simpl.
  unfold set_control_block_. simpl. rewrite lookup_insert_eq. simpl.
  rewrite lookup_insert_eq. simpl.
  rewrite incr_keep_eq by done. simpl.
  by rewrite !insert_insert_eq.
Qed.

Lemma set_data__eq s h v p :
  handles s !! h = Some v →
  set_data_ h p s = Some (put_handle h (mkPtr (elem v) p (control_block_ v)) s).
Proof. intros Hh. unfold set_data_. by rewrite Hh. Qed.

Lemma set_control_block__eq s h v c :
  handles s !! h = Some v →
  set_control_block_ h c s = Some (put_handle h (mkPtr (elem v) (data_ v) c) s).
Proof. intros Hh. unfold set_control_block_. by rewrite Hh. Qed.

(** Move assignment after [Reset()] has emptied [this]. *)
Lemma steal_fields_eq s this other e o :
  handles s !! this = Some (mkPtr e None None) →
  handles s !! other = Some o →
  this ≠ other →
  (o1 ← handles s !! other;
   s2 ← set_data_ this (data_ o1) s;
   o2 ← handles s2 !! other;
   s3 ← set_control_block_ this (control_block_ o2) s2;
   s4 ← set_data_ other None s3;
   set_control_block_ other None s4)
  = Some (mkState (<[other := mkPtr (elem o) None None]>
                     (<[this := mkPtr e (data_ o) (control_block_ o)]> (handles s)))
            (blocks s) (objects s) (trace s)).
Proof.
  intros Ht Ho Hne. rewrite Ho. simpl.
  erewrite set_data__eq by done. simpl.
  rewrite lookup_insert_ne, Ho by done. simpl.
  erewrite set_control_block__eq by (simpl; apply lookup_insert_eq). simpl.
  erewrite set_data__eq by (simpl; rewrite !lookup_insert_ne by done; exact Ho).
  simpl.
  erewrite set_control_block__eq by (simpl; apply lookup_insert_eq). simpl.
  unfold put_handle. simpl. by rewrite !insert_insert_eq.
Qed.

Lemma copy_assign_keep_eq s this other t o :
  this ≠ other →
  handles s !! this = Some t →
  handles s !! other = Some o →
  has_count (blocks s) (control_block_ t) 2 SIZE_MAX →
  has_count (bump (control_block_ t) (-1) (blocks s)) (control_block_ o) 0 (SIZE_MAX - 1) →
  copy_assign this other s
  = Some (mkState (<[this := mkPtr (elem t) (data_ o) (control_block_ o)]> (handles s))
            (bump (control_block_ o) 1 (bump (control_block_ t) (-1) (blocks s)))
            (objects s)
            (trace s ++ decr_events (control_block_ t) ++ incr_events (control_block_ o))).
Proof.
  intros Hne Ht Ho Hnt Hno. unfold copy_assign.
  rewrite (Reset_keep_eq s this t) by done. simpl.
  erewrite assign_fields_eq; [|store_lookup..].
  simpl. by rewrite insert_insert_eq, <- app_assoc.
Qed.

(** Assigning a handle to itself only resets it: the fields are read back
    from the handle that [Reset()] has just emptied. *)
Lemma copy_assign_self_eq s h :
  copy_assign h h s = Reset h s.
Proof.
  unfold copy_assign.
  destruct (Reset h s) as [s1|] eqn:E; [|done]. simpl.
  assert (∃ e, handles s1 !! h = Some (mkPtr e None None)) as [e He].
  { unfold Reset in E. destruct (handles s !! h) as [v|]; [|done]. simpl in E.
    destruct (release (control_block_ v) s) as [s0|]; [|done]. simpl in E.
    unfold set_data_ in E. destruct (handles s0 !! h) as [v0|]; [|done].
    simpl in E. unfold set_control_block_ in E. simpl in E.
    rewrite lookup_insert_eq in E. simpl in E. injection E as <-.
    eexists. simpl. apply lookup_insert_eq. }
  rewrite He. simpl. unfold set_data_. rewrite He. simpl.
  rewrite lookup_insert_eq. simpl.
  unfold set_control_block_. simpl. rewrite lookup_insert_eq. simpl.
  rewrite lookup_insert_eq. simpl.
  unfold put_handle. simpl. rewrite !insert_insert_eq, insert_id by done.
  by destruct s1.
Qed.

Lemma move_assign_self_eq s h :
  move_assign h h s = Reset h s.
Proof.
  unfold move_assign.
  destruct (Reset h s) as [s1|] eqn:E; [|done]. simpl.
  assert (∃ e, handles s1 !! h = Some (mkPtr e None None)) as [e He].
  { unfold Reset in E. destruct (handles s !! h) as [v|]; [|done]. simpl in E.
    destruct (release (control_block_ v) s) as [s0|]; [|done]. simpl in E.
    unfold set_data_ in E. destruct (handles s0 !! h) as [v0|]; [|done].
    simpl in E. unfold set_control_block_ in E. simpl in E.
    rewrite lookup_insert_eq in E. simpl in E. injection E as <-.
    eexists. simpl. apply lookup_insert_eq. }
  rewrite He. simpl. unfold set_data_. rewrite He. simpl.
  rewrite lookup_insert_eq. simpl.
  unfold set_control_block_. simpl. rewrite lookup_insert_eq. simpl.
  rewrite lookup_insert_eq. simpl. rewrite lookup_insert_eq. simpl.
  unfold put_handle. simpl. rewrite !insert_insert_eq, insert_id by done.
  by destruct s1.
Qed.

(** ** [Swap] as an equation *)

Lemma fresh_handle_unused (m : gmap nat SharedPtr) : m !! fresh (dom m) = None.
Proof. apply not_elem_of_dom, is_fresh. Qed.

Lemma Swap_ne_eq s a b va vb :
  a ≠ b →
  handles s !! a = Some va →
  handles s !! b = Some vb →
  has_count (blocks s) (control_block_ va) 1 (SIZE_MAX - 1) →
  has_count (blocks s) (control_block_ vb) 1 (SIZE_MAX - 1) →
  Swap a b s
  = Some (mkState
            (<[b := mkPtr (elem vb) (data_ va) (control_block_ va)]>
               (<[a := mkPtr (elem va) (data_ vb) (control_block_ vb)]> (handles s)))
            (blocks s) (objects s)
            (trace s
             ++ incr_events (control_block_ va) ++ decr_events (control_block_ va)
             ++ incr_events (control_block_ vb) ++ decr_events (control_block_ vb)
             ++ incr_events (control_block_ va) ++ decr_events (control_block_ va))).
Proof.
  intros Hne Ha Hb Hna Hnb.
  pose proof (fresh_handle_unused (handles s)) as Htmp.
  unfold Swap. rewrite Ha. simpl.
  set (tmp := fresh (dom (handles s))) in *.
  assert (tmp ≠ a) by congruence. assert (tmp ≠ b) by congruence.
  assert (Hna2 : has_count (bump (control_block_ va) 1 (blocks s))
                   (control_block_ va) 2 SIZE_MAX).
  { eapply has_count_weaken; [| |by apply has_count_bump]; lia. }
  assert (Hnb2 : has_count (bump (control_block_ vb) 1 (blocks s))
                   (control_block_ vb) 2 SIZE_MAX).
  { eapply has_count_weaken; [| |by apply has_count_bump]; lia. }
  rewrite (SharedPtr_copy_keep_eq s (elem va) tmp a va);
    [|done|by eapply has_count_weaken; [| |exact Hna]; lia|done].
  simpl.
  rewrite (copy_assign_keep_eq _ a b va vb); [|done|store_lookup..].
  2:{ erewrite bump_cancel by done. eapply has_count_weaken; [| |exact Hnb]; lia. }
  simpl. erewrite (bump_cancel (blocks s)) by done.
  rewrite (copy_assign_keep_eq _ b tmp vb (mkPtr (elem va) (data_ va) (control_block_ va)));
    [|done|store_lookup..].
  2:{ simpl. erewrite bump_cancel by done.
      eapply has_count_weaken; [| |exact Hna]; lia. }
  simpl. erewrite (bump_cancel (blocks s)) by done.
  rewrite (SharedPtr_dtor_keep_eq _ tmp (mkPtr (elem va) (data_ va) (control_block_ va)));
    [|store_lookup..].
  simpl. erewrite (bump_cancel (blocks s)) by done.
  f_equal. f_equal.
  - rewrite !delete_insert_ne by done. by rewrite delete_insert_eq, delete_id.
  - by rewrite <- !app_assoc.
Qed.

Lemma Swap_self_eq s a va :
  handles s !! a = Some va →
  has_count (blocks s) (control_block_ va) 1 (SIZE_MAX - 1) →
  Swap a a s
  = Some (mkState (handles s) (blocks s) (objects s)
            (trace s
             ++ incr_events (control_block_ va) ++ decr_events (control_block_ va)
             ++ incr_events (control_block_ va) ++ decr_events (control_block_ va))).
Proof.
  intros Ha Hna.
  pose proof (fresh_handle_unused (handles s)) as Htmp.
  unfold Swap. rewrite Ha. simpl.
  set (tmp := fresh (dom (handles s))) in *.
  assert (tmp ≠ a) by congruence.
  assert (Hna2 : has_count (bump (control_block_ va) 1 (blocks s))
                   (control_block_ va) 2 SIZE_MAX).
  { eapply has_count_weaken; [| |by apply has_count_bump]; lia. }
  rewrite (SharedPtr_copy_keep_eq s (elem va) tmp a va);
    [|done|by eapply has_count_weaken; [| |exact Hna]; lia|done].
  simpl. rewrite copy_assign_self_eq.
  rewrite (Reset_keep_eq _ a va); [|store_lookup..].
  simpl. erewrite (bump_cancel (blocks s)) by done.
  rewrite (copy_assign_keep_eq _ a tmp (mkPtr (elem va) None None)
             (mkPtr (elem va) (data_ va) (control_block_ va)));
    [|done|store_lookup..].
  2:{ simpl. eapply has_count_weaken; [| |exact Hna]; lia. }
  simpl.
  rewrite (SharedPtr_dtor_keep_eq _ tmp (mkPtr (elem va) (data_ va) (control_block_ va)));
    [|store_lookup..].
  simpl. erewrite (bump_cancel (blocks s)) by done.
  f_equal. f_equal.
  - rewrite insert_insert_eq, delete_insert_ne by done.
    rewrite delete_insert_eq, delete_id by done.
    apply insert_id. by destruct va.
  - by rewrite <- !app_assoc.
Qed.

Lemma count_updates_incr c : Forall (λ e, is_count_update e = true) (incr_events c).
Proof. destruct c; simpl; repeat constructor. Qed.

Lemma count_updates_decr c : Forall (λ e, is_count_update e = true) (decr_events c).
Proof. destruct c; simpl; repeat constructor. Qed.

Lemma count_updates_no_alloc l :
  Forall (λ e, is_count_update e = true) l → allocations l = 0.
Proof.
  unfold allocations. induction 1 as [|e l He _ IH]; [done|].
  rewrite filter_cons_False; [done|]. by destruct e.
Qed.

Lemma count_updates_no_dtor l :
  Forall (λ e, is_count_update e = true) l → dtor_runs l = 0.
Proof.
  unfold dtor_runs. induction 1 as [|e l He _ IH]; [done|].
  rewrite filter_cons_False; [done|]. by destruct e.
Qed.

Lemma count_updates_no_free l b :
  Forall (λ e, is_count_update e = true) l → frees_of b l = 0.
Proof.
  unfold frees_of. induction 1 as [|e l He _ IH]; [done|].
  rewrite filter_cons_False; [done|]. by destruct e.
Qed.

(** ** Counting the handles of a block *)

Lemma refs_insert_fresh hs h v b :
  hs !! h = None →
  refs (<[h := v]> hs) b = refs hs b + ind (control_block_ v) b.
Proof.
  intros Hh. unfold refs, ind. rewrite map_filter_insert. simpl.
  destruct (decide (control_block_ v = Some b)).
  - rewrite map_size_insert_None; [lia|].
    apply map_lookup_filter_None_2. by left.
  - rewrite delete_id by done. lia.
Qed.

Lemma refs_lookup hs h v b :
  hs !! h = Some v →
  refs hs b = refs (delete h hs) b + ind (control_block_ v) b.
Proof.
  intros Hh. rewrite <- (insert_id hs h v) at 1 by done.
  rewrite <- insert_delete_eq. apply refs_insert_fresh, lookup_delete_eq.
Qed.

Lemma refs_insert hs h v b :
  refs (<[h := v]> hs) b = refs (delete h hs) b + ind (control_block_ v) b.
Proof.
  rewrite <- insert_delete_eq. apply refs_insert_fresh, lookup_delete_eq.
Qed.

Lemma refs_le_size hs b : refs hs b ≤ size hs.
Proof. unfold refs. apply map_subseteq_size, map_filter_subseteq. Qed.

Lemma refs_empty b : refs ∅ b = 0.
Proof. unfold refs. by rewrite map_filter_empty, map_size_empty. Qed.

Lemma ind_same b : ind (Some b) b = 1.
Proof. unfold ind. by rewrite decide_True. Qed.

Lemma ind_None b : ind None b = 0.
Proof. done. Qed.

Lemma refs_pos hs h v b :
  hs !! h = Some v → control_block_ v = Some b → 1 ≤ refs hs b.
Proof.
  intros Hh Hc. rewrite (refs_lookup hs h v b Hh), Hc, ind_same. lia.
Qed.

(** ** Preservation of the counting invariant *)

Lemma cnt_insert bs b cb b' :
  cnt (<[b := cb]> bs) b' = if decide (b = b') then ref_cnt cb else cnt bs b'.
Proof.
  unfold cnt. destruct (decide (b = b')) as [->|Hne].
  - by rewrite lookup_insert_eq.
  - by rewrite lookup_insert_ne.
Qed.

Lemma cnt_delete bs b b' :
  cnt (delete b bs) b' = if decide (b = b') then 0%Z else cnt bs b'.
Proof.
  unfold cnt. destruct (decide (b = b')) as [->|Hne].
  - by rewrite lookup_delete_eq.
  - by rewrite lookup_delete_ne.
Qed.

Lemma cnt_lookup bs b cb : bs !! b = Some cb → cnt bs b = ref_cnt cb.
Proof. unfold cnt. by intros ->. Qed.

Lemma cnt_fresh bs : cnt bs (fresh (dom bs)) = 0%Z.
Proof. unfold cnt. by rewrite fresh_block_unused. Qed.

Lemma destroy_block_frame b k s s0 :
  destroy_block b k s = Some s0 → handles s0 = handles s ∧ blocks s0 = blocks s.
Proof.
  destruct k as [Y [[l [|off]|b' off]|]|Y st]; simpl; try done.
  - destruct (objects s !! l); [|done]. by intros [= <-].
  - by intros [= <-].
  - by intros [= <-].
Qed.

Lemma release_facts s c s1 :
  release c s = Some s1 →
  (∀ b, c = Some b → (1 ≤ cnt (blocks s) b ≤ SIZE_MAX)%Z) →
  handles s1 = handles s
  ∧ ∀ b', cnt (blocks s1) b' = (cnt (blocks s) b' - Z.of_nat (ind c b'))%Z.
Proof.
  unfold release. destruct c as [b|].
  - intros E Hn. specialize (Hn b eq_refl).
    destruct (blocks s !! b) as [cb|] eqn:Hb; [|done]. simpl in E.
    rewrite (cnt_lookup _ _ _ Hb) in Hn.
    destruct (decide (ref_cnt cb = 1%Z)) as [H1|H1].
    + unfold delete_control_block in E. rewrite Hb in E. simpl in E.
      destruct (destroy_block b (derived cb) s) as [s0|] eqn:E0; [|done].
      simpl in E. injection E as <-. simpl.
      apply destroy_block_frame in E0 as [-> ->]. split; [done|].
      intros b'. rewrite cnt_delete. unfold ind.
      destruct (decide (b = b')) as [->|Hne].
      * rewrite decide_True by done. rewrite (cnt_lookup _ _ _ Hb). lia.
      * rewrite decide_False by congruence. lia.
    + injection E as <-. simpl. split; [done|].
      intros b'. rewrite cnt_insert. unfold ind.
      destruct (decide (b = b')) as [->|Hne].
      * rewrite decide_True by done. rewrite (cnt_lookup _ _ _ Hb). simpl.
        rewrite wrap_id by lia. lia.
      * rewrite decide_False by congruence. lia.
  - intros [= <-] _. split; [done|]. intros b'. rewrite ind_None. lia.
Qed.

Lemma incr_facts s c s1 :
  incr_ref_cnt c s = Some s1 →
  (∀ b, c = Some b → (0 ≤ cnt (blocks s) b < SIZE_MAX)%Z) →
  handles s1 = handles s
  ∧ is_Some c
  ∧ ∀ b', cnt (blocks s1) b' = (cnt (blocks s) b' + Z.of_nat (ind c b'))%Z.
Proof.
  unfold incr_ref_cnt. destruct c as [b|]; [|done]. simpl.
  intros E Hn. specialize (Hn b eq_refl).
  destruct (blocks s !! b) as [cb|] eqn:Hb; [|done]. simpl in E.
  rewrite (cnt_lookup _ _ _ Hb) in Hn. injection E as <-. simpl.
  split; [done|]. split; [done|].
  intros b'. rewrite cnt_insert. unfold ind.
  destruct (decide (b = b')) as [->|Hne].
  - rewrite decide_True by done. rewrite (cnt_lookup _ _ _ Hb). simpl.
    rewrite wrap_id by lia. lia.
  - rewrite decide_False by congruence. lia.
Qed.

(** Under the invariant, a block held by a handle is alive, and its count is
    between 1 and the number of handles. *)
Lemma inv_held s h v b :
  inv s → handles s !! h = Some v → control_block_ v = Some b →
  (1 ≤ cnt (blocks s) b ≤ Z.of_nat (size (handles s)))%Z.
Proof.
  intros [Hc _] Hh Hb. rewrite Hc.
  pose proof (refs_pos _ _ _ _ Hh Hb). pose proof (refs_le_size (handles s) b). lia.
Qed.

Lemma inv_has_count s h v lo hi :
  inv s → handles s !! h = Some v →
  (lo ≤ 1)%Z → (Z.of_nat (size (handles s)) ≤ hi)%Z →
  has_count (blocks s) (control_block_ v) lo hi.
Proof.
  intros Hinv Hh Hlo Hhi. destruct (control_block_ v) as [b|] eqn:Hb; [|done].
  pose proof (inv_held s h v b Hinv Hh Hb) as Hn. simpl.
  unfold cnt in Hn. destruct (blocks s !! b) as [cb|]; [|lia].
  exists cb. split; [done|lia].
Qed.

Lemma inv_of_delta s s' :
  inv s →
  (∀ b, (cnt (blocks s') b - Z.of_nat (refs (handles s') b)
         = cnt (blocks s) b - Z.of_nat (refs (handles s) b))%Z) →
  map_Forall (λ _ v, control_block_ v = None → data_ v = None) (handles s') →
  inv s'.
Proof.
  intros [Hc Hd] Hdelta Hdata. split; [|done].
  intros b. specialize (Hdelta b). specialize (Hc b). lia.
Qed.

Lemma MAX_HANDLES_small : (MAX_HANDLES + 1 < SIZE_MAX)%Z.
Proof. unfold MAX_HANDLES, SIZE_MAX. lia. Qed.

Lemma new_handle_inv s h v :
  inv s →
  handles s !! h = None →
  control_block_ v = None →
  data_ v = None →
  inv (put_handle h v s).
Proof.
  intros Hinv Hh Hc Hd. apply (inv_of_delta s); [done| |].
  - intros b. simpl. rewrite refs_insert_fresh by done. rewrite Hc, ind_None. lia.
  - simpl. apply map_Forall_insert_2; [done|]. apply Hinv.
Qed.

Lemma SharedPtr_default_inv s s' T h :
  inv s → SharedPtr_default T h s = Some s' →
  inv s' ∧ size (handles s') ≤ S (size (handles s)).
Proof.
  intros Hinv E. unfold SharedPtr_default, declare in E.
  destruct (handles s !! h) eqn:Hh; [done|]. injection E as <-.
  split; [by apply new_handle_inv|]. simpl. by rewrite map_size_insert_None.
Qed.

Lemma adopt_inv s h v k ptr :
  inv s →
  handles s !! h = Some v →
  control_block_ v = None →
  inv (mkState (<[h := mkPtr (elem v) ptr (Some (fresh (dom (blocks s))))]> (handles s))
         (<[fresh (dom (blocks s)) := mkBlock 1 k]> (blocks s))
         (objects s) (trace s ++ [EvNewBlock (fresh (dom (blocks s)))])).
Proof.
  intros Hinv Hh Hc. apply (inv_of_delta s); [done| |].
  - intros b. simpl. rewrite refs_insert, (refs_lookup _ _ _ b Hh), Hc, ind_None.
    rewrite cnt_insert. pose proof (cnt_fresh (blocks s)). simpl. delta_solve.
  - simpl. apply map_Forall_insert_2; [done|]. apply Hinv.
Qed.

Lemma adopt_fresh_inv s h T k ptr :
  inv s →
  handles s !! h = None →
  inv (mkState (<[h := mkPtr T ptr (Some (fresh (dom (blocks s))))]> (handles s))
         (<[fresh (dom (blocks s)) := mkBlock 1 k]> (blocks s))
         (objects s) (trace s ++ [EvNewBlock (fresh (dom (blocks s)))])).
Proof.
  intros Hinv Hh. apply (inv_of_delta s); [done| |].
  - intros b. simpl. rewrite refs_insert_fresh by done.
    rewrite cnt_insert. pose proof (cnt_fresh (blocks s)). simpl. delta_solve.
  - simpl. apply map_Forall_insert_2; [done|]. apply Hinv.
Qed.

Lemma SharedPtr_from_ptr_inv s s' T Y h ptr :
  inv s → SharedPtr_from_ptr T Y h ptr s = Some s' →
  inv s' ∧ size (handles s') ≤ S (size (handles s)).
Proof.
  intros Hinv E. destruct (handles s !! h) eqn:Hh.
  { unfold SharedPtr_from_ptr, new_block, declare in E. simpl in E.
    by rewrite Hh in E. }
  rewrite SharedPtr_from_ptr_eq in E by done. injection E as <-.
  split; [by apply adopt_fresh_inv|]. simpl. by rewrite map_size_insert_None.
Qed.

Lemma MakeShared_inv s s' Y ctor h args :
  inv s → MakeShared Y ctor h args s = Some s' →
  inv s' ∧ size (handles s') ≤ S (size (handles s)).
Proof.
  intros Hinv E. unfold MakeShared, SharedPtr_default, declare in E.
  destruct (handles s !! h) eqn:Hh; [done|]. simpl in E.
  unfold set_control_block_ in E. simpl in E. rewrite lookup_insert_eq in E.
  simpl in E. unfold set_data_ in E. simpl in E. rewrite lookup_insert_eq in E.
  simpl in E. injection E as <-.
  unfold put_handle, emit, put_block. simpl. rewrite !insert_insert_eq.
  split; [by apply adopt_fresh_inv|]. simpl. by rewrite map_size_insert_None.
Qed.

Lemma new_object_inv s v : inv s → inv (new_object v s).
Proof. intros [Hc Hd]. by split. Qed.

Lemma refs_insert_Z hs h w b :
  Z.of_nat (refs (<[h := w]> hs) b)
  = (Z.of_nat (refs hs b) - Z.of_nat (ind (held hs h) b)
     + Z.of_nat (ind (control_block_ w) b))%Z.
Proof.
  unfold held. rewrite refs_insert. destruct (hs !! h) as [v|] eqn:Hh; simpl.
  - rewrite (refs_lookup hs h v b Hh). lia.
  - rewrite delete_id by done. rewrite ind_None. lia.
Qed.

Lemma refs_delete_Z hs h b :
  Z.of_nat (refs (delete h hs) b)
  = (Z.of_nat (refs hs b) - Z.of_nat (ind (held hs h) b))%Z.
Proof.
  unfold held. destruct (hs !! h) as [v|] eqn:Hh; simpl.
  - rewrite (refs_lookup hs h v b Hh). lia.
  - rewrite delete_id by done. rewrite ind_None. lia.
Qed.

Lemma held_lookup hs h v : hs !! h = Some v → held hs h = control_block_ v.
Proof. unfold held. by intros ->. Qed.

Lemma held_fresh hs h : hs !! h = None → held hs h = None.
Proof. unfold held. by intros ->. Qed.

Lemma held_insert_ne hs h h' w : h ≠ h' → held (<[h := w]> hs) h' = held hs h'.
Proof. intros. unfold held. by rewrite lookup_insert_ne. Qed.

Lemma cnt_bump bs c lo hi d b' :
  has_count bs c lo hi →
  cnt (bump c d bs) b' = (cnt bs b' + d * Z.of_nat (ind c b'))%Z.
Proof.
  destruct c as [b|]; simpl.
  - intros (cb & Hb & _). unfold cnt, ind.
    destruct (decide (Some b = Some b')) as [[= ->]|Hne].
    + rewrite lookup_alter_eq, Hb. simpl. lia.
    + rewrite lookup_alter_ne by congruence. lia.
  - intros _. rewrite ind_None. lia.
Qed.

Lemma size_insert_le (hs : gmap nat SharedPtr) h w : size (<[h := w]> hs) ≤ S (size hs).
Proof. rewrite map_size_insert. destruct (hs !! h); simpl; lia. Qed.

Lemma size_delete_le (hs : gmap nat SharedPtr) h : size (delete h hs) ≤ size hs.
Proof. rewrite map_size_delete. destruct (hs !! h); simpl; lia. Qed.

Lemma SharedPtr_copy_inv s s' T h other :
  inv s → (Z.of_nat (size (handles s)) < SIZE_MAX - 1)%Z →
  SharedPtr_copy T h other s = Some s' →
  inv s' ∧ size (handles s') ≤ S (size (handles s)).
Proof.
  intros Hinv Hroom E.
  destruct (handles s !! other) as [o|] eqn:Ho;
    [|by unfold SharedPtr_copy in E; rewrite Ho in E].
  destruct (handles s !! h) as [?|] eqn:Hh;
    [by unfold SharedPtr_copy, declare in E; rewrite Ho in E; simpl in E; rewrite Hh in E|].
  assert (Hn : has_count (blocks s) (control_block_ o) 0 (SIZE_MAX - 1)).
  { eapply inv_has_count; [done..|lia|lia]. }
  rewrite (SharedPtr_copy_keep_eq s T h other o) in E by done. injection E as <-.
  split; [|apply size_insert_le].
  apply (inv_of_delta s); [done| |].
  - intros b. simpl. rewrite refs_insert_Z, (cnt_bump _ _ _ _ _ _ Hn).
    rewrite (held_fresh _ _ Hh). simpl. delta_solve.
  - simpl. apply map_Forall_insert_2; [|apply Hinv].
    simpl. by apply (inv_data s Hinv other o).
Qed.

Lemma SharedPtr_move_inv s s' T h other :
  inv s → SharedPtr_move T h other s = Some s' →
  inv s' ∧ size (handles s') ≤ S (size (handles s)).
Proof.
  intros Hinv E.
  destruct (handles s !! other) as [o|] eqn:Ho;
    [|by unfold SharedPtr_move in E; rewrite Ho in E].
  destruct (handles s !! h) as [?|] eqn:Hh;
    [by unfold SharedPtr_move, declare in E; rewrite Ho in E; simpl in E; rewrite Hh in E|].
  assert (h ≠ other) by congruence.
  rewrite (SharedPtr_move_eq s T h other o) in E by done. injection E as <-.
  split.
  - apply (inv_of_delta s); [done| |].
    + intros b. simpl. rewrite !refs_insert_Z.
      rewrite held_insert_ne, (held_lookup _ _ _ Ho), (held_fresh _ _ Hh) by done.
      simpl. delta_solve.
    + simpl. apply map_Forall_insert_2; [done|].
      apply map_Forall_insert_2; [|apply Hinv].
      simpl. by apply (inv_data s Hinv other o).
  - simpl. rewrite map_size_insert_Some by (rewrite lookup_insert_ne by done; eauto).
    apply size_insert_le.
Qed.

Lemma SharedPtr_alias_inv s s' T h other ptr :
  inv s → (Z.of_nat (size (handles s)) < SIZE_MAX - 1)%Z →
  SharedPtr_alias T h other ptr s = Some s' →
  inv s' ∧ size (handles s') ≤ S (size (handles s)).
Proof.
  intros Hinv Hroom E. unfold SharedPtr_alias, declare in E.
  destruct (handles s !! other) as [o|] eqn:Ho; [|done]. simpl in E.
  destruct (handles s !! h) as [?|] eqn:Hh; [done|]. simpl in E.
  apply incr_facts in E as (Hhs & [b Hb] & Hcnt).
  - split; [|rewrite Hhs; apply size_insert_le].
    apply (inv_of_delta s); [done| |].
    + intros b'. rewrite Hcnt, Hhs. simpl. rewrite refs_insert_Z.
      rewrite (held_fresh _ _ Hh). simpl. delta_solve.
    + rewrite Hhs. simpl. apply map_Forall_insert_2; [|apply Hinv].
      simpl. by rewrite Hb.
  - intros b Hb. simpl. pose proof (inv_held s other o b Hinv Ho Hb). lia.
Qed.

(** The part that the destructor and the two [Reset] overloads share. *)
Lemma release_inv s s1 h v w :
  inv s → (Z.of_nat (size (handles s)) < SIZE_MAX - 1)%Z →
  handles s !! h = Some v →
  release (control_block_ v) s = Some s1 →
  control_block_ w = None → data_ w = None →
  inv (put_handle h w s1) ∧ inv (drop_handle h s1) ∧ handles s1 = handles s.
Proof.
  intros Hinv Hroom Hh E Hc Hd.
  apply release_facts in E as [Hhs Hcnt].
  2:{ intros b Hb. pose proof (inv_held s h v b Hinv Hh Hb). lia. }
  split; [|split; [|done]].
  - apply (inv_of_delta s); [done| |].
    + intros b'. simpl. rewrite Hcnt, Hhs, refs_insert_Z.
      rewrite (held_lookup _ _ _ Hh), Hc, ind_None. lia.
    + simpl. rewrite Hhs. apply map_Forall_insert_2; [done|apply Hinv].
  - apply (inv_of_delta s); [done| |].
    + intros b'. simpl. rewrite Hcnt, Hhs, refs_delete_Z.
      rewrite (held_lookup _ _ _ Hh). lia.
    + simpl. rewrite Hhs. apply map_Forall_delete, Hinv.
Qed.

Lemma SharedPtr_dtor_inv s s' h :
  inv s → (Z.of_nat (size (handles s)) < SIZE_MAX - 1)%Z →
  SharedPtr_dtor h s = Some s' →
  inv s' ∧ size (handles s') ≤ size (handles s).
Proof.
  intros Hinv Hroom E. unfold SharedPtr_dtor in E.
  destruct (handles s !! h) as [v|] eqn:Hh; [|done]. simpl in E.
  destruct (release (control_block_ v) s) as [s1|] eqn:E1; [|done].
  simpl in E. injection E as <-.
  destruct (release_inv s s1 h v (mkPtr (elem v) None None)) as (_ & Hi & Hhs);
    [done..|].
  split; [done|]. simpl. rewrite Hhs. apply size_delete_le.
Qed.

Lemma Reset_facts s s' h :
  Reset h s = Some s' →
  ∃ v s1, handles s !! h = Some v
    ∧ release (control_block_ v) s = Some s1
    ∧ s' = put_handle h (mkPtr (elem v) None None) s1.
Proof.
  unfold Reset. intros E.
  destruct (handles s !! h) as [v|] eqn:Hh; [|done]. simpl in E.
  destruct (release (control_block_ v) s) as [s1|] eqn:E1; [|done]. simpl in E.
  assert (Hhs : handles s1 !! h = Some v).
  { destruct (control_block_ v) as [b|].
    - unfold release in E1. destruct (blocks s !! b) as [cb|]; [|done]. simpl in E1.
      destruct (decide (ref_cnt cb = 1%Z)).
      + unfold delete_control_block in E1.
        destruct (blocks s !! b) as [cb'|]; [|done]. simpl in E1.
        destruct (destroy_block b (derived cb') s) as [s0|] eqn:E0; [|done].
        simpl in E1. injection E1 as <-. simpl.
        apply destroy_block_frame in E0 as [-> _]. done.
      + by injection E1 as <-.
    - by injection E1 as <-. }
  unfold set_data_ in E. rewrite Hhs in E. simpl in E.
  unfold set_control_block_ in E. simpl in E. rewrite lookup_insert_eq in E.
  simpl in E. injection E as <-.
  exists v, s1. split; [done|]. split; [done|].
  unfold put_handle. simpl. by rewrite insert_insert_eq.
Qed.

Lemma Reset_inv s s' h :
  inv s → (Z.of_nat (size (handles s)) < SIZE_MAX - 1)%Z →
  Reset h s = Some s' →
  inv s' ∧ size (handles s') = size (handles s)
  ∧ (∃ e, handles s' !! h = Some (mkPtr e None None))
  ∧ (∀ h', h' ≠ h → handles s' !! h' = handles s !! h').
Proof.
  intros Hinv Hroom E.
  apply Reset_facts in E as (v & s1 & Hh & E1 & ->).
  destruct (release_inv s s1 h v (mkPtr (elem v) None None)) as (Hi & _ & Hhs);
    [done..|].
  split; [done|]. simpl. rewrite Hhs. split; [|split].
  - apply map_size_insert_Some. eauto.
  - eexists. apply lookup_insert_eq.
  - intros h' Hne. by rewrite lookup_insert_ne.
Qed.

Lemma release_handles s c s1 : release c s = Some s1 → handles s1 = handles s.
Proof.
  unfold release. destruct c as [b|]; [|by intros [= <-]].
  destruct (blocks s !! b) as [cb|]; [|done]. simpl.
  destruct (decide (ref_cnt cb = 1%Z)).
  - unfold delete_control_block.
    destruct (blocks s !! b) as [cb'|]; [|done]. simpl.
    destruct (destroy_block b (derived cb') s) as [s0|] eqn:E0; [|done].
    simpl. intros [= <-]. simpl. by apply destroy_block_frame in E0 as [-> _].
  - by intros [= <-].
Qed.

Lemma Reset_ptr_inv s s' Y h ptr :
  inv s → (Z.of_nat (size (handles s)) < SIZE_MAX - 1)%Z →
  Reset_ptr Y h ptr s = Some s' →
  inv s' ∧ size (handles s') = size (handles s).
Proof.
  intros Hinv Hroom E. unfold Reset_ptr in E.
  destruct (handles s !! h) as [v|] eqn:Hh; [|done]. simpl in E.
  destruct (release (control_block_ v) s) as [s1|] eqn:E1; [|done]. simpl in E.
  pose proof (release_handles _ _ _ E1) as Hhs.
  unfold set_data_ in E. rewrite Hhs, Hh in E. simpl in E.
  unfold set_control_block_ in E. simpl in E. rewrite lookup_insert_eq in E.
  simpl in E. injection E as <-.
  destruct (release_inv s s1 h v (mkPtr (elem v) None None)) as (Hi & _ & _);
    [done..|].
  pose proof (adopt_inv _ h (mkPtr (elem v) None None) (ControlBlockPtr Y ptr) ptr Hi)
    as Hadopt.
  simpl in Hadopt. rewrite lookup_insert_eq, insert_insert_eq in Hadopt.
  specialize (Hadopt eq_refl eq_refl).
  unfold put_handle, emit, put_block. simpl. rewrite insert_insert_eq, Hhs.
  rewrite Hhs in Hadopt. split; [done|].
  apply map_size_insert_Some. eauto.
Qed.

Lemma copy_assign_inv s s' this other :
  inv s → (Z.of_nat (size (handles s)) < SIZE_MAX - 1)%Z →
  copy_assign this other s = Some s' →
  inv s' ∧ size (handles s') = size (handles s).
Proof.
  intros Hinv Hroom E.
  destruct (decide (this = other)) as [->|Hne].
  { rewrite copy_assign_self_eq in E.
    by destruct (Reset_inv s s' other Hinv Hroom E) as (? & ? & _). }
  unfold copy_assign in E.
  destruct (Reset this s) as [s1|] eqn:ER; [|done].
  destruct (Reset_inv s s1 this Hinv Hroom ER) as (Hi & Hsz & [e He] & Hfr).
  simpl in E.
  destruct (handles s1 !! other) as [o|] eqn:Ho; [|done].
  assert (Hn : has_count (blocks s1) (control_block_ o) 0 (SIZE_MAX - 1)).
  { eapply inv_has_count; [done..|lia|lia]. }
  rewrite <- Ho in E. rewrite (assign_fields_eq s1 this other e o) in E by done.
  injection E as <-. split.
  - apply (inv_of_delta s1); [done| |].
    + intros b. simpl. rewrite refs_insert_Z, (cnt_bump _ _ _ _ _ _ Hn).
      rewrite (held_lookup _ _ _ He). simpl. delta_solve.
    + simpl. apply map_Forall_insert_2; [|apply Hi].
      simpl. by apply (inv_data s1 Hi other o).
  - simpl. rewrite <- Hsz. apply map_size_insert_Some. eauto.
Qed.

Lemma move_assign_inv s s' this other :
  inv s → (Z.of_nat (size (handles s)) < SIZE_MAX - 1)%Z →
  move_assign this other s = Some s' →
  inv s' ∧ size (handles s') = size (handles s).
Proof.
  intros Hinv Hroom E.
  destruct (decide (this = other)) as [->|Hne].
  { rewrite move_assign_self_eq in E.
    by destruct (Reset_inv s s' other Hinv Hroom E) as (? & ? & _). }
  unfold move_assign in E.
  destruct (Reset this s) as [s1|] eqn:ER; [|done].
  destruct (Reset_inv s s1 this Hinv Hroom ER) as (Hi & Hsz & [e He] & Hfr).
  simpl in E.
  destruct (handles s1 !! other) as [o|] eqn:Ho; [|done].
  rewrite <- Ho in E. rewrite (steal_fields_eq s1 this other e o) in E by done.
  injection E as <-. split.
  - apply (inv_of_delta s1); [done| |].
    + intros b. simpl. rewrite !refs_insert_Z.
      rewrite held_insert_ne, (held_lookup _ _ _ Ho), (held_lookup _ _ _ He) by done.
      simpl. delta_solve.
    + simpl. apply map_Forall_insert_2; [done|].
      apply map_Forall_insert_2; [|apply Hi].
      simpl. by apply (inv_data s1 Hi other o).
  - simpl. rewrite <- Hsz.
    rewrite map_size_insert_Some by (rewrite lookup_insert_ne by done; eauto).
    apply map_size_insert_Some. eauto.
Qed.

Lemma Swap_inv s s' this other :
  inv s → (Z.of_nat (size (handles s)) < SIZE_MAX - 2)%Z →
  Swap this other s = Some s' →
  inv s' ∧ size (handles s') ≤ S (size (handles s)).
Proof.
  intros Hinv Hroom E. unfold Swap in E.
  destruct (handles s !! this) as [t|] eqn:Ht; [|done]. simpl in E.
  destruct (SharedPtr_copy (elem t) (fresh (dom (handles s))) this s)
    as [s1|] eqn:E1; [|done]. simpl in E.
  destruct (copy_assign this other s1) as [s2|] eqn:E2; [|done]. simpl in E.
  destruct (copy_assign other (fresh (dom (handles s))) s2) as [s3|] eqn:E3; [|done].
  simpl in E.
  apply SharedPtr_copy_inv in E1 as [Hi1 Hsz1]; [|done|lia].
  apply copy_assign_inv in E2 as [Hi2 Hsz2]; [|done|lia].
  apply copy_assign_inv in E3 as [Hi3 Hsz3]; [|done|lia].
  apply SharedPtr_dtor_inv in E as [Hi4 Hsz4]; [|done|lia].
  split; [done|lia].
Qed.

Lemma exec_inv c s s' :
  inv s → fits s → exec c s = Some s' →
  inv s' ∧ size (handles s') ≤ S (size (handles s)).
Proof.
  intros Hinv Hfit E. unfold fits in Hfit.
  pose proof MAX_HANDLES_small as Hsmall.
  destruct c; simpl in E.
  - injection E as <-. split; [by apply new_object_inv|simpl; lia].
  - by apply SharedPtr_default_inv in E.
  - by apply SharedPtr_default_inv in E.
  - by apply SharedPtr_from_ptr_inv in E.
  - apply SharedPtr_copy_inv in E; [done|done|lia].
  - by apply SharedPtr_move_inv in E.
  - apply SharedPtr_alias_inv in E; [done|done|lia].
  - apply copy_assign_inv in E as [? ?]; [|done|lia]. split; [done|lia].
  - apply move_assign_inv in E as [? ?]; [|done|lia]. split; [done|lia].
  - apply SharedPtr_dtor_inv in E as [? ?]; [|done|lia]. split; [done|lia].
  - apply Reset_inv in E as (? & ? & _); [|done|lia]. split; [done|lia].
  - apply Reset_ptr_inv in E as [? ?]; [|done|lia]. split; [done|lia].
  - apply Swap_inv in E; [done|done|lia].
  - by apply MakeShared_inv in E.
Qed.

Lemma init_inv : inv init.
Proof.
  split.
  - intros b. simpl. by rewrite refs_empty.
  - apply map_Forall_empty.
Qed.

Lemma run_inv cs : ∀ s s',
  inv s → (Z.of_nat (size (handles s)) ≤ MAX_HANDLES)%Z →
  run cs s = Some s' →
  inv s' ∧ (Z.of_nat (size (handles s')) ≤ MAX_HANDLES)%Z.
Proof.
  induction cs as [|c cs IH]; intros s s' Hinv Hsz E; simpl in E.
  - by injection E as <-.
  - destruct (decide (fits s)) as [Hfit|]; [|done].
    destruct (exec c s) as [s1|] eqn:E1; [|done]. simpl in E.
    destruct (exec_inv c s s1 Hinv Hfit E1) as [Hi1 Hsz1].
    apply (IH s1 s'); [done| |done]. unfold fits in Hfit. lia.
Qed.

(** In a state that a program reaches, a block held by a handle is alive and
    its count is the number of handles holding it, which is at least 1 and
    well below [SIZE_MAX]. *)
Lemma count_in_range cs s h v b :
  run cs init = Some s →
  handles s !! h = Some v →
  control_block_ v = Some b →
  ∃ cb, blocks s !! b = Some cb
    ∧ ref_cnt cb = Z.of_nat (refs (handles s) b)
    ∧ (1 ≤ ref_cnt cb < SIZE_MAX - 1)%Z.
Proof.
  intros E Hh Hb.
  destruct (run_inv cs init s init_inv) as [Hinv Hsz]; [done|done|].
  pose proof (inv_held s h v b Hinv Hh Hb) as Hn.
  pose proof (inv_cnt s Hinv b) as Hc.
  pose proof MAX_HANDLES_small.
  unfold cnt in *. destruct (blocks s !! b) as [cb|]; [|lia].
  exists cb. split; [done|]. split; [done|lia].
Qed.

(** * Part III: the properties C1 to C10 *)

(** ** C1: a block is destroyed once, by the release that finds the count at 1 *)

(** C1.  Let the [n >= 1] handles named by [rs] be all the handles of block
    [b], whose count is [n], and let them give up their reference one after
    another, each by its destructor or by [Reset()].  Every proper prefix of
    [k < n] releases leaves the block alive with count [n - k], leaves every
    object alive and adds only [k] decrements to the trace, so that the last
    release finds the count at 1.  The whole sequence removes the block and
    its payload, and its trace returns the block's storage exactly once, after
    [n - 1] decrements and the destruction of the payload.  For a single
    release of a handle of [b], in any state: the block is gone afterwards if
    and only if the release found the count at 1. *)
Theorem block_destroyed_exactly_once (s : state) (b : loc) (cb : ControlBlockBase)
    (rs : list releaser) :
  blocks s !! b = Some cb →
  payload_live s (derived cb) →
  NoDup (releaser_handle <$> rs) →
  Forall (λ r, refers s (releaser_handle r) b) rs →
  rs ≠ [] →
  ref_cnt cb = Z.of_nat (length rs) →
  (ref_cnt cb ≤ SIZE_MAX)%Z →
  (∀ k, k < length rs →
     ∃ sk, relinquish_all (take k rs) s = Some sk
       ∧ blocks sk !! b = Some (with_ref_cnt (ref_cnt cb - Z.of_nat k) cb)
       ∧ objects sk = objects s
       ∧ trace sk = trace s ++ replicate k (EvDecr b))
  ∧ (∃ s' new, relinquish_all rs s = Some s'
       ∧ blocks s' !! b = None
       ∧ objects s' = objects_after (derived cb) (objects s)
       ∧ trace s' = trace s ++ new
       ∧ new = replicate (length rs - 1) (EvDecr b)
               ++ destroy_events b (derived cb) ++ [EvFreeBlock b]
       ∧ frees_of b new = 1
       ∧ dtor_runs new = dtor_runs (destroy_events b (derived cb)))
  ∧ (∀ r s0 cb0,
       refers s0 (releaser_handle r) b →
       blocks s0 !! b = Some cb0 →
       (1 ≤ ref_cnt cb0 ≤ SIZE_MAX)%Z →
       payload_live s0 (derived cb0) →
       ∃ s1, relinquish r s0 = Some s1
         ∧ (blocks s1 !! b = None ↔ ref_cnt cb0 = 1%Z)).
Proof.
  intros Hb Hl Hnd Hall Hne Hn Hmax. split; [|split].
  - intros k Hk.
    destruct (relinquish_siblings b (take k rs) s cb) as (sk & E & B & O & T & _).
    + done.
    + rewrite fmap_take. eapply sublist_NoDup; [done | apply sublist_take].
    + by apply Forall_take.
    + rewrite length_take. lia.
    + rewrite length_take, Nat.min_l in * by lia.
      exists sk. repeat split; try done. by rewrite B, lookup_insert_eq.
  - destruct (relinquish_everyone b rs s cb) as (s' & E & B & O & T & _); [done..|].
    eexists s', _. repeat split; try done.
    + by rewrite B, lookup_delete_eq.
    + rewrite !frees_of_app, frees_of_replicate_decr, frees_of_destroy_events,
        frees_of_one. done.
    + rewrite !dtor_runs_app, dtor_runs_replicate_decr. simpl.
      change (dtor_runs [EvFreeBlock b]) with 0. lia.
  - intros r s0 cb0 Hr Hb0 Hn0 Hl0.
    destruct (decide (ref_cnt cb0 = 1%Z)) as [H1|H1].
    + destruct (relinquish_last r s0 b cb0) as (s1 & E & B & _); [done..|].
      exists s1. split; [done|]. by rewrite B, lookup_delete_eq.
    + destruct (relinquish_shared r s0 b cb0) as (s1 & E & B & _); [done|done|lia|].
      exists s1. split; [done|]. rewrite B, lookup_insert_eq. by split.
Qed.

Lemma block_destroyed_exactly_once_witness :
  ∃ s', relinquish_all [ByDestructor 0; ByReset 1] two_owners = Some s'
    ∧ blocks s' !! 0 = None
    ∧ trace s' = trace two_owners
                 ++ [EvDecr 0; EvDtor "int" (Obj 7 0); EvFreeObj 7; EvFreeBlock 0].
Proof.
  destruct (block_destroyed_exactly_once two_owners 0
              (mkBlock 2 (ControlBlockPtr "int" (Some (Obj 7 0))))
              [ByDestructor 0; ByReset 1])
    as (_ & (s' & new & E & B & _ & T & N & _) & _).
  - reflexivity.
  - simpl. by eexists.
  - apply NoDup_cons. split; [|apply NoDup_singleton].
    intros Hin. apply list_elem_of_singleton in Hin. discriminate.
  - apply Forall_cons. split; [eexists; split; reflexivity|].
    apply Forall_singleton. eexists; split; reflexivity.
  - discriminate.
  - reflexivity.
  - unfold SIZE_MAX. simpl. lia.
  - exists s'. rewrite T, N. done.
Defined.

(** ** C2: copy construction shares and counts, move construction transfers *)

(** C2.  Let [src] hold block [b], whose count [n] is below [SIZE_MAX] (the
    count is the number of live handles of the block, see [count_in_range]).
    Constructing [h] as a copy of [src], for any static type [T] of [h], gives
    [h] the data pointer and the block of [src], leaves [src] as it was and
    makes both report [UseCount() = n + 1].  Constructing [h] by move gives it
    the same two fields, leaves every block (so the count) unchanged, and
    leaves [src] with null data and no block. *)
Theorem copy_shares_move_transfers (s : state) (T : cls) (h src : hid)
    (v : SharedPtr) (b : loc) (cb : ControlBlockBase) :
  handles s !! src = Some v →
  control_block_ v = Some b →
  blocks s !! b = Some cb →
  (0 ≤ ref_cnt cb < SIZE_MAX)%Z →
  handles s !! h = None →
  (∃ s', SharedPtr_copy T h src s = Some s'
     ∧ handles s' !! h = Some (mkPtr T (data_ v) (Some b))
     ∧ handles s' !! src = Some v
     ∧ UseCount s v = Some (ref_cnt cb)
     ∧ UseCount s' v = Some (ref_cnt cb + 1)%Z
     ∧ UseCount s' (mkPtr T (data_ v) (Some b)) = Some (ref_cnt cb + 1)%Z)
  ∧ (∃ s', SharedPtr_move T h src s = Some s'
     ∧ handles s' !! h = Some (mkPtr T (data_ v) (Some b))
     ∧ handles s' !! src = Some (mkPtr (elem v) None None)
     ∧ blocks s' = blocks s
     ∧ trace s' = trace s
     ∧ UseCount s' (mkPtr T (data_ v) (Some b)) = Some (ref_cnt cb)
     ∧ UseCount s' (mkPtr (elem v) None None) = Some 0%Z).
Proof.
  intros Hv Hc Hb Hn Hh.
  assert (Hne : h ≠ src) by congruence.
  split.
  - unfold SharedPtr_copy, declare. rewrite Hv. simpl. rewrite Hh. simpl.
    rewrite Hc. rewrite (incr_ref_cnt_live b cb) by done. simpl.
    eexists. split; [done|]. simpl.
    rewrite lookup_insert_eq, lookup_insert_ne by done.
    unfold UseCount. simpl. rewrite Hc, Hb, lookup_insert_eq. done.
  - unfold SharedPtr_move, declare. rewrite Hv. simpl. rewrite Hh. simpl.
    unfold set_data_. simpl. rewrite lookup_insert_ne, Hv by done. simpl.
    unfold set_control_block_. simpl. rewrite lookup_insert_eq. simpl.
    eexists. split; [done|]. simpl.
    rewrite insert_insert_eq, lookup_insert_eq.
    rewrite lookup_insert_ne, lookup_insert_eq by done.
    unfold UseCount. simpl. rewrite Hc, Hb. done.
Qed.

Lemma copy_shares_move_transfers_witness :
  ∃ s', SharedPtr_copy "const int" 2 0 two_owners = Some s'
    ∧ UseCount s' (mkPtr "int" (Some (Obj 7 0)) (Some 0)) = Some 3%Z.
Proof.
  destruct (copy_shares_move_transfers two_owners "const int" 2 0
              (mkPtr "int" (Some (Obj 7 0)) (Some 0)) 0
              (mkBlock 2 (ControlBlockPtr "int" (Some (Obj 7 0)))))
    as [(s' & E & _ & _ & _ & U & _) _].
  - reflexivity.
  - reflexivity.
  - reflexivity.
  - unfold SIZE_MAX. simpl. lia.
  - reflexivity.
  - exists s'. split; [exact E | exact U].
Defined.

(** ** C3: assigning a handle to itself *)

(** What the code does where C3 is violated: for every handle, [h = h] and
    [h = std::move(h)] are exactly [h.Reset()].  On the only owner of an
    object, either one destroys the object and leaves the handle empty with
    [UseCount() = 0]; on one of two owners it decrements the count seen by the
    other owner and leaves the handle empty. *)
Theorem self_assignment_resets :
  (∀ s h, copy_assign h h s = Reset h s ∧ move_assign h h s = Reset h s)
  ∧ (∃ s', copy_assign 0 0 data_owner = Some s'
       ∧ move_assign 0 0 data_owner = Some s'
       ∧ UseCount data_owner (mkPtr "Data" (Some (Obj 7 0)) (Some 0)) = Some 1%Z
       ∧ handles s' !! 0 = Some (mkPtr "Data" None None)
       ∧ UseCount s' (mkPtr "Data" None None) = Some 0%Z
       ∧ objects s' !! 7 = None
       ∧ trace s' = trace data_owner
                    ++ [EvDtor "Data" (Obj 7 0); EvFreeObj 7; EvFreeBlock 0])
  ∧ (∃ s', copy_assign 0 0 two_owners = Some s'
       ∧ move_assign 0 0 two_owners = Some s'
       ∧ UseCount two_owners (mkPtr "int" (Some (Obj 7 0)) (Some 0)) = Some 2%Z
       ∧ handles s' !! 0 = Some (mkPtr "int" None None)
       ∧ UseCount s' (mkPtr "int" None None) = Some 0%Z
       ∧ UseCount s' (mkPtr "int" (Some (Obj 7 0)) (Some 0)) = Some 1%Z).
Proof.
  split; [|split].
  - intros s h. split; [apply copy_assign_self_eq | apply move_assign_self_eq].
  - eexists. split; [vm_compute; reflexivity|]. repeat split; vm_compute; reflexivity.
  - eexists. split; [vm_compute; reflexivity|]. repeat split; vm_compute; reflexivity.
Qed.

(** ** C4: [UseCount() == 0] and the boolean test *)

(** C4, as stated, fails: after [SharedPtr<int> h((int* )nullptr)] the handle
    tests false, since its data is null, while [UseCount()] is 1. *)
Lemma UseCount_zero_iff_false_counterexample :
  ¬ (∀ cs s h v, run cs init = Some s → handles s !! h = Some v →
       (UseCount s v = Some 0%Z ↔ operator_bool v = false)).
Proof.
  intros H.
  specialize (H [CallFromPtr "int" "int" 0 None]
                (mkState {[0 := mkPtr "int" None (Some 0)]}
                         {[0 := mkBlock 1 (ControlBlockPtr "int" None)]} ∅
                         [EvNewBlock 0])
                0 (mkPtr "int" None (Some 0)) eq_refl eq_refl).
  destruct H as [_ H]. specialize (H eq_refl). vm_compute in H. discriminate.
Qed.

(** C4, amended.  For every handle of a state that a program reaches,
    [UseCount()] is defined, it is 0 exactly when the handle holds no control
    block, and a handle with [UseCount() == 0] tests false.  (A handle that
    tests false may hold a block: one made from a null pointer does.) *)
Theorem UseCount_zero_iff_no_block (cs : list call) (s : state) (h : hid) (v : SharedPtr) :
  run cs init = Some s →
  handles s !! h = Some v →
  (∃ n, UseCount s v = Some n)
  ∧ (UseCount s v = Some 0%Z ↔ control_block_ v = None)
  ∧ (UseCount s v = Some 0%Z → operator_bool v = false).
Proof.
  intros E Hh.
  destruct (run_inv cs init s init_inv) as [Hinv _]; [done|done|].
  unfold UseCount, operator_bool.
  destruct (control_block_ v) as [b|] eqn:Hb.
  - destruct (count_in_range cs s h v b E Hh Hb) as (cb & Hcb & _ & Hn).
    rewrite Hcb. simpl. split; [eauto|]. split.
    + split; [|done]. intros [= H0]. lia.
    + intros [= H0]. lia.
  - split; [eauto|]. split; [done|]. intros _.
    by rewrite (inv_data s Hinv h v Hh Hb).
Qed.

Lemma UseCount_zero_iff_no_block_witness :
  ∃ n, UseCount (mkState {[0 := mkPtr "A" None None; 1 := mkPtr "A" None (Some 0)]}
                   {[0 := mkBlock 1 (ControlBlockPtr "B" None)]} ∅ [EvNewBlock 0])
         (mkPtr "A" None (Some 0)) = Some n.
Proof.
  apply (UseCount_zero_iff_no_block
           [CallDefault "A" 0; CallFromPtr "A" "B" 1 None]
           (mkState {[0 := mkPtr "A" None None; 1 := mkPtr "A" None (Some 0)]}
              {[0 := mkBlock 1 (ControlBlockPtr "B" None)]} ∅ [EvNewBlock 0])
           1 (mkPtr "A" None (Some 0))).
  - reflexivity.
  - reflexivity.
Defined.

(** ** C5: the aliasing constructor *)

(** C5.  Let [src] hold block [b] with count [n], [1 <= n < SIZE_MAX].  The
    aliasing constructor [SharedPtr<T> h(src, ptr)] is defined; [h] has data
    [ptr] and block [b], and the count seen through [h] and through [src] is
    [n + 1].  Afterwards, let any [k <= n] distinct handles of [b] (the
    original, its copies, or the alias itself) be released in any order: the
    block stays alive, no destructor runs and no object is freed; if the alias
    is not among them it still exists, and dereferencing it reads what [ptr]
    designated when the alias was made.  Only when all [n + 1] handles of the
    block are released is the payload destroyed, once, by the last of them. *)
Theorem alias_shares_lifetime (s : state) (T : cls) (h src : hid) (ptr : pointer)
    (v : SharedPtr) (b : loc) (cb : ControlBlockBase) :
  handles s !! src = Some v →
  control_block_ v = Some b →
  blocks s !! b = Some cb →
  (1 ≤ ref_cnt cb < SIZE_MAX)%Z →
  handles s !! h = None →
  ∃ s1, SharedPtr_alias T h src ptr s = Some s1
    ∧ handles s1 !! h = Some (mkPtr T ptr (Some b))
    ∧ Get (mkPtr T ptr (Some b)) = ptr
    ∧ UseCount s1 (mkPtr T ptr (Some b)) = Some (ref_cnt cb + 1)%Z
    ∧ UseCount s1 v = Some (ref_cnt cb + 1)%Z
    ∧ (∀ rs, NoDup (releaser_handle <$> rs) →
         Forall (λ r, refers s1 (releaser_handle r) b) rs →
         (Z.of_nat (length rs) ≤ ref_cnt cb)%Z →
         ∃ s2, relinquish_all rs s1 = Some s2
           ∧ blocks s2 !! b
             = Some (with_ref_cnt (ref_cnt cb + 1 - Z.of_nat (length rs)) cb)
           ∧ objects s2 = objects s
           ∧ trace s2 = trace s1 ++ replicate (length rs) (EvDecr b)
           ∧ dtor_runs (replicate (length rs) (EvDecr b)) = 0
           ∧ (h ∉ releaser_handle <$> rs →
                handles s2 !! h = Some (mkPtr T ptr (Some b))
                ∧ deref s2 (mkPtr T ptr (Some b)) = deref s (mkPtr T ptr (Some b))))
    ∧ (∀ rs, NoDup (releaser_handle <$> rs) →
         Forall (λ r, refers s1 (releaser_handle r) b) rs →
         Z.of_nat (length rs) = (ref_cnt cb + 1)%Z →
         payload_live s (derived cb) →
         ∃ s2, relinquish_all rs s1 = Some s2
           ∧ blocks s2 !! b = None
           ∧ trace s2 = trace s1 ++ replicate (length rs - 1) (EvDecr b)
                        ++ destroy_events b (derived cb) ++ [EvFreeBlock b]).
Proof.
  intros Hv Hc Hb Hn Hh.
  rewrite (SharedPtr_alias_eq s T h src ptr v b cb) by (done || lia).
  set (cb1 := with_ref_cnt (ref_cnt cb + 1) cb).
  eexists. split; [done|]. simpl.
  split; [store_lookup|]. split; [done|].
  split; [unfold UseCount; by store_lookup|].
  split; [unfold UseCount; rewrite Hc; by store_lookup|].
  split.
  - intros rs Hnd Hall Hlen.
    edestruct (relinquish_siblings b rs) as (s2 & E & B & O & Tr & F);
      [| exact Hnd | exact Hall | |].
    + simpl. apply lookup_insert_eq.
    + simpl. lia.
    + exists s2. split; [done|]. simpl in *.
      split; [by rewrite B, lookup_insert_eq|].
      split; [done|]. split; [done|].
      split; [apply dtor_runs_replicate_decr|].
      intros Hnotin. rewrite F by done. split; [store_lookup|].
      unfold deref. simpl. destruct ptr as [a|]; simpl; [|done].
      apply load_frame; [done|].
      intros b'. rewrite B. destruct (decide (b' = b)) as [->|Hne].
      * rewrite lookup_insert_eq, Hb. done.
      * by rewrite !lookup_insert_ne.
  - intros rs Hnd Hall Hlen Hlive.
    edestruct (relinquish_everyone b rs) as (s2 & E & B & O & Tr & F);
      [| | exact Hnd | exact Hall | | | |].
    + simpl. apply lookup_insert_eq.
    + done.
    + intros ->. simpl in Hlen. lia.
    + simpl. lia.
    + simpl. lia.
    + exists s2. split; [done|]. simpl in *.
      split; [by rewrite B, lookup_delete_eq|]. done.
Qed.

Lemma alias_shares_lifetime_witness :
  ∃ s1 s2, SharedPtr_alias "double" 1 0 (Some (Obj 7 1)) data_owner = Some s1
    ∧ relinquish_all [ByDestructor 0] s1 = Some s2
    ∧ deref s2 (mkPtr "double" (Some (Obj 7 1)) (Some 0)) = Some 314%Z.
Proof.
  destruct (alias_shares_lifetime data_owner "double" 1 0 (Some (Obj 7 1))
              (mkPtr "Data" (Some (Obj 7 0)) (Some 0)) 0
              (mkBlock 1 (ControlBlockPtr "Data" (Some (Obj 7 0)))))
    as (s1 & E & _ & _ & _ & _ & Hkeep & _).
  - reflexivity.
  - reflexivity.
  - reflexivity.
  - unfold SIZE_MAX. simpl. lia.
  - reflexivity.
  - destruct (Hkeep [ByDestructor 0]) as (s2 & E2 & _ & _ & _ & _ & Halias).
    + apply NoDup_singleton.
    + apply Forall_singleton. vm_compute in E. injection E as <-.
      eexists. split; reflexivity.
    + simpl. lia.
    + exists s1, s2. split; [exact E|]. split; [exact E2|].
      destruct Halias as [_ ->]; [|reflexivity].
      simpl. intros Hin. apply list_elem_of_singleton in Hin. discriminate.
Defined.

(** ** C6: the factory allocates once *)

(** C6.  For every class [Y], constructor [ctor] and argument list,
    [MakeShared<Y>(args...)] into a new variable [h] is defined and performs
    one allocation, that of a fresh holder block [b]; the block has count 1
    and its embedded storage holds [ctor args]; [h] has type [Y], points at the
    start of that storage and reports [UseCount() = 1]; reading through any
    offset of the embedded object gives the member [ctor] computed; no object
    outside the block is created. *)
Theorem MakeShared_allocates_once (s : state) (Y : cls) (ctor : list Z → list Z)
    (h : hid) (args : list Z) :
  handles s !! h = None →
  ∃ s' b, MakeShared Y ctor h args s = Some s'
    ∧ blocks s !! b = None
    ∧ blocks s' = <[b := mkBlock 1 (ControlBlockHolder Y (ctor args))]> (blocks s)
    ∧ handles s' = <[h := mkPtr Y (Some (Emb b 0)) (Some b)]> (handles s)
    ∧ objects s' = objects s
    ∧ trace s' = trace s ++ [EvNewBlock b]
    ∧ allocations [EvNewBlock b] = 1
    ∧ UseCount s' (mkPtr Y (Some (Emb b 0)) (Some b)) = Some 1%Z
    ∧ ∀ off, load s' (Emb b off) = ctor args !! off.
Proof.
  intros Hh.
  unfold MakeShared, SharedPtr_default, declare. rewrite Hh. simpl.
  unfold set_control_block_. simpl. rewrite lookup_insert_eq. simpl.
  unfold set_data_. simpl. rewrite lookup_insert_eq. simpl.
  eexists _, (fresh (dom (blocks s))). split; [done|]. simpl.
  rewrite !insert_insert_eq.
  repeat split; try done.
  - apply fresh_block_unused.
  - unfold UseCount. simpl. by rewrite lookup_insert_eq.
  - intros off. unfold load. simpl. by rewrite lookup_insert_eq.
Qed.

Lemma MakeShared_allocates_once_witness :
  ∃ s', MakeShared "Pair" (λ args, args) 0 [3; 4]%Z init = Some s'
    ∧ trace s' = [EvNewBlock 0]
    ∧ deref s' (mkPtr "Pair" (Some (Emb 0 0)) (Some 0)) = Some 3%Z.
Proof.
  destruct (MakeShared_allocates_once init "Pair" (λ args, args) 0 [3; 4]%Z)
    as (s' & b & E & _).
  - reflexivity.
  - exists s'. split; [exact E|].
    vm_compute in E. injection E as <-. split; reflexivity.
Defined.

(** ** C7: [Swap] *)

(** C7, as stated, fails: with [a] the only owner of a block and [b] empty,
    [a.Swap(b)] increments the count of that block twice, in [auto tmp = *this]
    and in [other = tmp]. *)
Lemma Swap_copies_counterexample :
  ¬ (∀ s', Swap 0 1 owner_and_empty = Some s' →
       increments (drop (length (trace owner_and_empty)) (trace s')) = 0).
Proof.
  intros H.
  specialize (H (mkState
                   {[0 := mkPtr "C" None None; 1 := mkPtr "C" (Some (Obj 7 0)) (Some 0)]}
                   {[0 := mkBlock 1 (ControlBlockPtr "C" (Some (Obj 7 0)))]}
                   {[7 := [1%Z]]}
                   [EvNewBlock 0; EvIncr 0; EvDecr 0; EvIncr 0; EvDecr 0])).
  specialize (H eq_refl). vm_compute in H. discriminate.
Qed.

(** C7, amended.  Let [a] and [b] be handles (possibly the same one) whose
    blocks, where they have one, are alive with a count from 1 to
    [SIZE_MAX - 1].  [a.Swap(b)] is defined; afterwards [a] has the data
    pointer and block that [b] had and conversely, every other handle, every
    block with its count, and every object are as before, and the events added
    to the trace are count increments and decrements only: no allocation, no
    destructor run, no storage returned. *)
Theorem Swap_exchanges (s : state) (a b : hid) (va vb : SharedPtr) :
  handles s !! a = Some va →
  handles s !! b = Some vb →
  has_count (blocks s) (control_block_ va) 1 (SIZE_MAX - 1) →
  has_count (blocks s) (control_block_ vb) 1 (SIZE_MAX - 1) →
  ∃ s' new, Swap a b s = Some s'
    ∧ handles s' !! a = Some (mkPtr (elem va) (data_ vb) (control_block_ vb))
    ∧ handles s' !! b = Some (mkPtr (elem vb) (data_ va) (control_block_ va))
    ∧ (∀ h, h ≠ a → h ≠ b → handles s' !! h = handles s !! h)
    ∧ blocks s' = blocks s
    ∧ objects s' = objects s
    ∧ UseCount s' (mkPtr (elem va) (data_ vb) (control_block_ vb)) = UseCount s vb
    ∧ UseCount s' (mkPtr (elem vb) (data_ va) (control_block_ va)) = UseCount s va
    ∧ trace s' = trace s ++ new
    ∧ Forall (λ e, is_count_update e = true) new
    ∧ allocations new = 0
    ∧ dtor_runs new = 0
    ∧ ∀ b0, frees_of b0 new = 0.
Proof.
  intros Ha Hb Hna Hnb.
  destruct (decide (a = b)) as [->|Hne].
  - assert (vb = va) as -> by congruence.
    rewrite (Swap_self_eq s b va) by done.
    eexists _, _. split; [done|]. simpl.
    assert (Hcu : Forall (λ e, is_count_update e = true)
              (incr_events (control_block_ va) ++ decr_events (control_block_ va)
               ++ incr_events (control_block_ va) ++ decr_events (control_block_ va))).
    { repeat apply Forall_app_2; auto using count_updates_incr, count_updates_decr. }
    repeat split; try done.
    + rewrite Ha. by destruct va.
    + rewrite Ha. by destruct va.
    + by apply count_updates_no_alloc.
    + by apply count_updates_no_dtor.
    + intros b0. by apply count_updates_no_free.
  - rewrite (Swap_ne_eq s a b va vb) by done.
    eexists _, _. split; [done|]. simpl.
    assert (Hcu : Forall (λ e, is_count_update e = true)
              (incr_events (control_block_ va) ++ decr_events (control_block_ va)
               ++ incr_events (control_block_ vb) ++ decr_events (control_block_ vb)
               ++ incr_events (control_block_ va) ++ decr_events (control_block_ va))).
    { repeat apply Forall_app_2; auto using count_updates_incr, count_updates_decr. }
    repeat split; try done.
    + by store_lookup.
    + by store_lookup.
    + intros h ??. by store_lookup.
    + by apply count_updates_no_alloc.
    + by apply count_updates_no_dtor.
    + intros b0. by apply count_updates_no_free.
Qed.

Lemma Swap_exchanges_witness :
  ∃ s', Swap 0 1 owner_and_empty = Some s'
    ∧ handles s' !! 0 = Some (mkPtr "C" None None)
    ∧ handles s' !! 1 = Some (mkPtr "C" (Some (Obj 7 0)) (Some 0))
    ∧ blocks s' = blocks owner_and_empty.
Proof.
  destruct (Swap_exchanges owner_and_empty 0 1
              (mkPtr "C" (Some (Obj 7 0)) (Some 0)) (mkPtr "C" None None))
    as (s' & new & E & A & B & _ & Bs & _).
  - reflexivity.
  - reflexivity.
  - simpl. eexists. split; [reflexivity|]. unfold SIZE_MAX. simpl. lia.
  - exact I.
  - exists s'. split; [exact E|]. split; [exact A|]. split; [exact B | exact Bs].
Defined.

(** ** C8: the payload is destroyed as the class fixed at creation *)

(** C8.  Adopt a live object through [SharedPtr<T> h(p)] with [p] of static
    type [Y*]: the block records [Y].  Whether [h] is destroyed at once, or
    first copied or moved into a handle [h2] of another static type [T2]
    (converting constructors) and both are destroyed, the only destructor that
    runs is [~Y] on the adopted object, whatever [T] and [T2] are.  In general
    the last release of any block, through a handle of any static type, runs
    the destructor of the class stored in the block: [Yb] for
    [ControlBlockPtr<Yb>] with a non-null pointer and for
    [ControlBlockHolder<Yb>]. *)
Theorem destruction_uses_creation_type (s : state) (T T2 Y : cls) (h h2 : hid)
    (l : loc) (o : list Z) :
  handles s !! h = None →
  handles s !! h2 = None →
  h ≠ h2 →
  objects s !! l = Some o →
  (∃ s1 b, SharedPtr_from_ptr T Y h (Some (Obj l 0)) s = Some s1
     ∧ blocks s1 !! b = Some (mkBlock 1 (ControlBlockPtr Y (Some (Obj l 0))))
     ∧ handles s1 !! h = Some (mkPtr T (Some (Obj l 0)) (Some b))
     ∧ (∃ s2, SharedPtr_dtor h s1 = Some s2
          ∧ trace s2 = trace s1 ++ [EvDtor Y (Obj l 0); EvFreeObj l; EvFreeBlock b])
     ∧ (∃ s2 s3 s4, SharedPtr_copy T2 h2 h s1 = Some s2
          ∧ handles s2 !! h2 = Some (mkPtr T2 (Some (Obj l 0)) (Some b))
          ∧ SharedPtr_dtor h s2 = Some s3
          ∧ SharedPtr_dtor h2 s3 = Some s4
          ∧ trace s4 = trace s1 ++ [EvIncr b; EvDecr b;
                                     EvDtor Y (Obj l 0); EvFreeObj l; EvFreeBlock b])
     ∧ (∃ s2 s3 s4, SharedPtr_move T2 h2 h s1 = Some s2
          ∧ handles s2 !! h2 = Some (mkPtr T2 (Some (Obj l 0)) (Some b))
          ∧ SharedPtr_dtor h s2 = Some s3
          ∧ SharedPtr_dtor h2 s3 = Some s4
          ∧ trace s4 = trace s1 ++ [EvDtor Y (Obj l 0); EvFreeObj l; EvFreeBlock b]))
  ∧ (∀ s' r b cb,
       refers s' (releaser_handle r) b →
       blocks s' !! b = Some cb →
       ref_cnt cb = 1%Z →
       payload_live s' (derived cb) →
       ∃ s2, relinquish r s' = Some s2
         ∧ trace s2 = trace s' ++ destroy_events b (derived cb) ++ [EvFreeBlock b]
         ∧ (∀ Yb l', derived cb = ControlBlockPtr Yb (Some (Obj l' 0)) →
              destroy_events b (derived cb) = [EvDtor Yb (Obj l' 0); EvFreeObj l'])
         ∧ (∀ Yb st, derived cb = ControlBlockHolder Yb st →
              destroy_events b (derived cb) = [EvDtor Yb (Emb b 0)])).
Proof.
  intros Hh Hh2 Hne Hl. split.
  - rewrite SharedPtr_from_ptr_eq by done.
    set (b := fresh (dom (blocks s))).
    set (cb := mkBlock 1 (ControlBlockPtr Y (Some (Obj l 0)))).
    set (v := mkPtr T (Some (Obj l 0)) (Some b)).
    eexists _, b. split; [done|]. simpl.
    split; [store_lookup|]. split; [store_lookup|].
    assert (Hlive : ∀ hs bs tr n,
              payload_live (mkState hs bs (objects s) tr) (derived (with_ref_cnt n cb))).
    { intros. simpl. by rewrite Hl. }
    split; [|split].
    + erewrite (SharedPtr_dtor_last_eq _ h v b cb); [|store_lookup..].
      eexists. split; [done|]. simpl. done.
    + erewrite (SharedPtr_copy_eq _ T2 h2 h v b cb);
        [|store_lookup; unfold SIZE_MAX; simpl; lia..].
      eexists _, _, _. split; [done|]. simpl.
      split; [store_lookup|].
      erewrite (SharedPtr_dtor_shared_eq _ h v b (with_ref_cnt 2 cb));
        [|store_lookup; unfold SIZE_MAX; simpl; lia..].
      split; [done|]. simpl.
      erewrite (SharedPtr_dtor_last_eq _ h2 (mkPtr T2 (Some (Obj l 0)) (Some b)) b
                  (with_ref_cnt 1 cb)); [|store_lookup..].
      split; [done|]. simpl. by rewrite <- !app_assoc.
    + erewrite (SharedPtr_move_eq _ T2 h2 h v); [|store_lookup..].
      eexists _, _, _. split; [done|]. simpl.
      split; [store_lookup|].
      erewrite (SharedPtr_dtor_empty_eq _ h (mkPtr T None None)); [|store_lookup..].
      split; [done|]. simpl.
      erewrite (SharedPtr_dtor_last_eq _ h2 (mkPtr T2 (Some (Obj l 0)) (Some b)) b cb);
        [|store_lookup..].
      split; [done|]. simpl. done.
  - intros s' r b cb Hr Hb Hn Hlive.
    destruct (relinquish_last r s' b cb) as (s2 & E & _ & _ & Tr & _); [done..|].
    exists s2. split; [done|]. split; [done|].
    split; intros Yb ? ->; done.
Qed.

Lemma destruction_uses_creation_type_witness :
  ∃ s1 s2 b, SharedPtr_from_ptr "Base" "Derived" 0 (Some (Obj 7 0)) one_object = Some s1
    ∧ SharedPtr_dtor 0 s1 = Some s2
    ∧ trace s2 = [EvNewBlock 0; EvDtor "Derived" (Obj 7 0); EvFreeObj 7; EvFreeBlock b].
Proof.
  destruct (destruction_uses_creation_type one_object "Base" "Base" "Derived" 0 1 7 [1%Z])
    as [(s1 & b & E & _ & _ & (s2 & E2 & Tr) & _) _].
  - reflexivity.
  - reflexivity.
  - discriminate.
  - reflexivity.
  - exists s1, s2, b. split; [exact E|]. split; [exact E2|].
    rewrite Tr. vm_compute in E. injection E as <-. reflexivity.
Defined.

(** ** C9: adopting a null pointer *)

(** C9.  [SharedPtr<T> h((Y* )nullptr)] is defined: it allocates one
    pointer-owning block with count 1 and a null [ptr_], and [h] has null data
    and that block.  Whenever the last handle of a block with a null [ptr_]
    is released, by destructor or [Reset()], the block's storage is returned
    and no destructor runs, no object is touched. *)
Theorem null_adoption (s : state) (T Y : cls) (h : hid) :
  handles s !! h = None →
  (∃ s1 b, SharedPtr_from_ptr T Y h None s = Some s1
     ∧ blocks s !! b = None
     ∧ handles s1 !! h = Some (mkPtr T None (Some b))
     ∧ blocks s1 !! b = Some (mkBlock 1 (ControlBlockPtr Y None))
     ∧ operator_bool (mkPtr T None (Some b)) = false
     ∧ UseCount s1 (mkPtr T None (Some b)) = Some 1%Z
     ∧ ∃ s2, SharedPtr_dtor h s1 = Some s2
         ∧ blocks s2 = blocks s
         ∧ objects s2 = objects s
         ∧ trace s2 = trace s ++ [EvNewBlock b; EvFreeBlock b])
  ∧ (∀ s' r b, refers s' (releaser_handle r) b →
       blocks s' !! b = Some (mkBlock 1 (ControlBlockPtr Y None)) →
       ∃ s2, relinquish r s' = Some s2
         ∧ blocks s2 = delete b (blocks s')
         ∧ objects s2 = objects s'
         ∧ trace s2 = trace s' ++ [EvFreeBlock b]
         ∧ dtor_runs [EvFreeBlock b] = 0).
Proof.
  intros Hh. split.
  - pose proof (fresh_block_unused (blocks s)) as Hf.
    unfold SharedPtr_from_ptr, new_block, declare. simpl. rewrite Hh.
    eexists _, (fresh (dom (blocks s))). split; [done|]. simpl.
    rewrite !lookup_insert_eq. repeat split; try done.
    + unfold UseCount. simpl. by rewrite lookup_insert_eq.
    + unfold SharedPtr_dtor. simpl. rewrite lookup_insert_eq. simpl.
      erewrite release_last; [|simpl; apply lookup_insert_eq|done|done]. simpl.
      eexists. split; [done|]. simpl.
      rewrite delete_insert_eq, delete_id by done.
      by rewrite <- app_assoc.
  - intros s' r b Hr Hb.
    destruct (relinquish_last r s' b _ Hr Hb) as (s2 & E & B & O & Tr & _);
      [done|done|].
    exists s2. repeat split; done.
Qed.

Lemma null_adoption_witness :
  ∃ s1, SharedPtr_from_ptr "int" "int" 2 None two_owners = Some s1
    ∧ UseCount s1 (mkPtr "int" None (Some 1)) = Some 1%Z.
Proof.
  destruct (null_adoption two_owners "int" "int" 2) as [(s1 & b & E & _) _].
  - reflexivity.
  - exists s1. split; [exact E|].
    vm_compute in E. injection E as <-. reflexivity.
Defined.

(** ** C10: an empty handle releases nothing *)

(** C10.  For a handle with null data and no control block, [Reset()] is
    defined and leaves the whole state as it was (in particular the trace:
    no destructor, no count update), the destructor is defined and only ends
    the variable, and the handle reports [UseCount() = 0] and tests false. *)
Theorem empty_handle_release_is_noop (s : state) (h : hid) (T : cls) :
  handles s !! h = Some (mkPtr T None None) →
  Reset h s = Some s
  ∧ SharedPtr_dtor h s = Some (drop_handle h s)
  ∧ trace (drop_handle h s) = trace s
  ∧ blocks (drop_handle h s) = blocks s
  ∧ objects (drop_handle h s) = objects s
  ∧ UseCount s (mkPtr T None None) = Some 0%Z
  ∧ operator_bool (mkPtr T None None) = false.
Proof.
  intros Hh. repeat split.
  - unfold Reset. rewrite Hh. simpl.
    unfold set_data_. rewrite Hh. simpl.
    unfold set_control_block_. simpl. rewrite lookup_insert_eq. simpl.
    unfold put_handle. simpl. rewrite insert_insert_eq, insert_id by done.
    by destruct s.
  - unfold SharedPtr_dtor. rewrite Hh. done.
Qed.

Lemma empty_handle_release_is_noop_witness :
  Reset 0 (mkState {[0 := mkPtr "int" None None]} ∅ ∅ [])
  = Some (mkState {[0 := mkPtr "int" None None]} ∅ ∅ []).
Proof.
  apply (empty_handle_release_is_noop
           (mkState {[0 := mkPtr "int" None None]} ∅ ∅ []) 0 "int").
  reflexivity.
Defined.

(** * Part IV: further properties of the header *)

(** ** Primitive updates *)

Lemma destroy_block_payload b k s s0 :
  destroy_block b k s = Some s0 → payload_live s k.
Proof.
  destruct k as [Y [[l [|off]|b' off]|]|Y st]; simpl; try done.
  destruct (objects s !! l); [by eauto|done].
Qed.

(** The three ways a release ends when it is defined. *)
Lemma release_cases c s s1 :
  release c s = Some s1 →
  (c = None ∧ s1 = s)
  ∨ (∃ b cb, c = Some b ∧ blocks s !! b = Some cb ∧ ref_cnt cb ≠ 1%Z
       ∧ s1 = mkState (handles s)
                (<[b := with_ref_cnt (wrap (ref_cnt cb - 1)) cb]> (blocks s))
                (objects s) (trace s ++ [EvDecr b]))
  ∨ (∃ b cb, c = Some b ∧ blocks s !! b = Some cb ∧ ref_cnt cb = 1%Z
       ∧ payload_live s (derived cb)
       ∧ s1 = mkState (handles s) (delete b (blocks s))
                (objects_after (derived cb) (objects s))
                (trace s ++ destroy_events b (derived cb) ++ [EvFreeBlock b])).
Proof.
  unfold release. destruct c as [b|]; [|intros [= <-]; by left].
  destruct (blocks s !! b) as [cb|] eqn:Hb; [|done]. simpl.
  destruct (decide (ref_cnt cb = 1%Z)) as [H1|H1].
  - intros E. right. right. exists b, cb.
    unfold delete_control_block in E. rewrite Hb in E. simpl in E.
    destruct (destroy_block b (derived cb) s) as [s0|] eqn:E0; [|done].
    pose proof (destroy_block_payload _ _ _ _ E0) as Hl.
    rewrite destroy_block_live in E0 by done. injection E0 as <-.
    simpl in E. injection E as <-.
    repeat split; try done. unfold emit, drop_block. simpl.
    by rewrite <- app_assoc.
  - intros [= <-]. right. left. by exists b, cb.
Qed.


Lemma allocations_app l1 l2 : allocations (l1 ++ l2) = allocations l1 + allocations l2.
Proof. unfold allocations. by rewrite filter_app, length_app. Qed.

Lemma allocations_destroy_events b k : allocations (destroy_events b k) = 0.
Proof. by destruct k as [Y [[l [|off]|b2 off]|]|Y st]. Qed.

Lemma news_of_app b l1 l2 : news_of b (l1 ++ l2) = news_of b l1 + news_of b l2.
Proof. unfold news_of. by rewrite filter_app, length_app. Qed.

Lemma news_of_destroy_events b b' k : news_of b (destroy_events b' k) = 0.
Proof. by destruct k as [Y [[l [|off]|b2 off]|]|Y st]. Qed.

Lemma news_of_new b b' : news_of b [EvNewBlock b'] = if decide (b' = b) then 1 else 0.
Proof.
  unfold news_of. destruct (decide (b' = b)) as [->|Hne].
  - by rewrite filter_cons_True.
  - rewrite filter_cons_False; [done|]. congruence.
Qed.

Lemma frees_of_free b b' : frees_of b [EvFreeBlock b'] = if decide (b' = b) then 1 else 0.
Proof.
  unfold frees_of. destruct (decide (b' = b)) as [->|Hne].
  - by rewrite filter_cons_True.
  - rewrite filter_cons_False; [done|]. congruence.
Qed.

(** ** What a sequence of primitive updates keeps *)

Lemma steps_trans n m s s1 s2 :
  steps n s s1 → steps m s1 s2 → steps (n + m) s s2.
Proof.
  induction 1 as [s|n s hs s' _ IH|n s c s0 s' E _ IH|n s b cb s0 s' Hb Hn E _ IH
                  |n s k s' _ IH|n s v s' _ IH]; intros H2; simpl.
  - done.
  - apply steps_handles with hs. by apply IH.
  - eapply steps_release; [done|]. by apply IH.
  - eapply steps_incr; [done..|]. by apply IH.
  - apply (steps_new_block _ _ k). by apply IH.
  - apply (steps_new_object _ _ v). by apply IH.
Qed.

Lemma steps_trace n s s' :
  steps n s s' → ∃ new, trace s' = trace s ++ new ∧ allocations new = n.
Proof.
  induction 1 as [s|n s hs s' _ IH|n s c s0 s' E _ IH|n s b cb s0 s' Hb Hn E _ IH
                  |n s k s' _ IH|n s v s' _ IH].
  - exists []. by rewrite app_nil_r.
  - done.
  - destruct IH as (new & -> & Ha).
    apply release_cases in E as [[_ ->]|[(b & cb & _ & _ & _ & ->)|(b & cb & _ & _ & _ & _ & ->)]].
    + by exists new.
    + simpl. exists ([EvDecr b] ++ new). by rewrite app_assoc.
    + simpl. exists ((destroy_events b (derived cb) ++ [EvFreeBlock b]) ++ new).
      rewrite !app_assoc. split; [done|].
      by rewrite !allocations_app, allocations_destroy_events.
  - destruct IH as (new & -> & Ha).
    unfold incr_ref_cnt in E. simpl in E. rewrite Hb in E. simpl in E.
    injection E as <-. simpl. exists ([EvIncr b] ++ new). by rewrite app_assoc.
  - destruct IH as (new & -> & Ha). simpl.
    exists ([EvNewBlock (fresh (dom (blocks s)))] ++ new).
    rewrite app_assoc. split; [done|]. rewrite allocations_app, Ha. done.
  - destruct IH as (new & -> & Ha). simpl.
    exists ([EvNewObj (fresh (dom (objects s)))] ++ new).
    rewrite app_assoc. split; [done|]. rewrite allocations_app, Ha. done.
Qed.

Lemma steps_positive n s s' :
  steps n s s' → counts_positive (blocks s) → counts_positive (blocks s').
Proof.
  unfold counts_positive.
  induction 1 as [s|n s hs s' _ IH|n s c s0 s' E _ IH|n s b cb s0 s' Hb Hn E _ IH
                  |n s k s' _ IH|n s v s' _ IH]; intros Hp.
  - done.
  - by apply IH.
  - apply IH.
    apply release_cases in E as [[_ ->]|[(b & cb & _ & Hb & H1 & ->)|(b & cb & _ & _ & _ & _ & ->)]].
    + done.
    + simpl. apply map_Forall_insert_2; [|done]. simpl.
      pose proof (Hp b cb Hb) as Hc. simpl in Hc. rewrite wrap_id by lia. lia.
    + simpl. by apply map_Forall_delete.
  - apply IH. unfold incr_ref_cnt in E. simpl in E. rewrite Hb in E. simpl in E.
    injection E as <-. simpl. apply map_Forall_insert_2; [|done]. simpl.
    pose proof (Hp b cb Hb) as Hc. simpl in Hc. rewrite wrap_id by lia. lia.
  - apply IH. simpl. apply map_Forall_insert_2; [|done]. simpl.
    unfold SIZE_MAX. lia.
  - by apply IH.
Qed.

Lemma steps_balanced n s s' :
  steps n s s' → balanced s → balanced s'.
Proof.
  unfold balanced.
  induction 1 as [s|n s hs s' _ IH|n s c s0 s' E _ IH|n s b cb s0 s' Hb Hn E _ IH
                  |n s k s' _ IH|n s v s' _ IH]; intros Hbal.
  - done.
  - by apply IH.
  - apply IH. intros b'. specialize (Hbal b').
    apply release_cases in E as [[_ ->]|[(b & cb & _ & Hb & H1 & ->)|(b & cb & _ & Hb & _ & _ & ->)]].
    + done.
    + simpl. rewrite news_of_app, frees_of_app. simpl.
      change (news_of b' [EvDecr b]) with 0. change (frees_of b' [EvDecr b]) with 0.
      destruct (decide (b = b')) as [->|Hne].
      * rewrite lookup_insert_eq. rewrite Hb in Hbal. lia.
      * rewrite lookup_insert_ne by done. lia.
    + simpl. rewrite !news_of_app, !frees_of_app, news_of_destroy_events,
        frees_of_destroy_events, frees_of_free.
      change (news_of b' [EvFreeBlock b]) with 0.
      destruct (decide (b = b')) as [->|Hne].
      * rewrite lookup_delete_eq. rewrite Hb in Hbal. lia.
      * rewrite lookup_delete_ne by done. lia.
  - apply IH. intros b'. specialize (Hbal b').
    unfold incr_ref_cnt in E. simpl in E. rewrite Hb in E. simpl in E.
    injection E as <-. simpl. rewrite news_of_app, frees_of_app.
    change (news_of b' [EvIncr b]) with 0. change (frees_of b' [EvIncr b]) with 0.
    destruct (decide (b = b')) as [->|Hne].
    + rewrite lookup_insert_eq. rewrite Hb in Hbal. lia.
    + rewrite lookup_insert_ne by done. lia.
  - apply IH. intros b'. specialize (Hbal b'). simpl.
    rewrite news_of_app, frees_of_app, news_of_new.
    change (frees_of b' [EvNewBlock (fresh (dom (blocks s)))]) with 0.
    pose proof (fresh_block_unused (blocks s)) as Hf.
    destruct (decide (fresh (dom (blocks s)) = b')) as [<-|Hne].
    + rewrite lookup_insert_eq. rewrite Hf in Hbal. lia.
    + rewrite lookup_insert_ne by done. lia.
  - apply IH. intros b'. specialize (Hbal b'). simpl.
    rewrite news_of_app, frees_of_app.
    change (news_of b' [EvNewObj (fresh (dom (objects s)))]) with 0.
    change (frees_of b' [EvNewObj (fresh (dom (objects s)))]) with 0. lia.
Qed.

(** ** Every call is a sequence of primitive updates *)

Lemma steps_put_handle n s h v s' :
  steps n (put_handle h v s) s' → steps n s s'.
Proof. apply steps_handles. Qed.

Lemma steps_drop_handle n s h s' :
  steps n (drop_handle h s) s' → steps n s s'.
Proof. apply steps_handles. Qed.

Lemma held_block_live s h v b :
  inv s → handles s !! h = Some v → control_block_ v = Some b →
  ∃ cb, blocks s !! b = Some cb
    ∧ (1 ≤ ref_cnt cb ≤ Z.of_nat (size (handles s)))%Z.
Proof.
  intros Hinv Hh Hb. pose proof (inv_held s h v b Hinv Hh Hb) as Hn.
  unfold cnt in Hn. destruct (blocks s !! b) as [cb|]; [|lia]. by exists cb.
Qed.

Lemma SharedPtr_default_steps s s' T h :
  SharedPtr_default T h s = Some s' → steps 0 s s'.
Proof.
  unfold SharedPtr_default, declare. destruct (handles s !! h); [done|].
  intros [= <-]. eapply steps_put_handle, steps_done.
Qed.

Lemma SharedPtr_from_ptr_steps s s' T Y h ptr :
  SharedPtr_from_ptr T Y h ptr s = Some s' → steps 1 s s'.
Proof.
  unfold SharedPtr_from_ptr, new_block, declare. simpl.
  destruct (handles s !! h); [done|]. intros [= <-].
  apply (steps_new_block _ _ (ControlBlockPtr Y ptr)).
  eapply steps_put_handle, steps_done.
Qed.

Lemma SharedPtr_copy_steps s s' T h other :
  inv s → (Z.of_nat (size (handles s)) < SIZE_MAX - 1)%Z →
  SharedPtr_copy T h other s = Some s' → steps 0 s s'.
Proof.
  intros Hinv Hroom E. unfold SharedPtr_copy, declare in E.
  destruct (handles s !! other) as [o|] eqn:Ho; [|done]. simpl in E.
  destruct (handles s !! h) eqn:Hh; [done|]. simpl in E.
  destruct (control_block_ o) as [b|] eqn:Hb.
  - destruct (held_block_live s other o b) as (cb & Hcb & Hn); [done..|].
    eapply steps_put_handle.
    eapply steps_incr; [exact Hcb| |exact E|apply steps_done]. lia.
  - injection E as <-. eapply steps_put_handle, steps_done.
Qed.

Lemma SharedPtr_move_steps s s' T h other :
  SharedPtr_move T h other s = Some s' → steps 0 s s'.
Proof.
  intros E.
  destruct (handles s !! other) as [o|] eqn:Ho;
    [|by unfold SharedPtr_move in E; rewrite Ho in E].
  destruct (handles s !! h) as [?|] eqn:Hh;
    [by unfold SharedPtr_move, declare in E; rewrite Ho in E; simpl in E; rewrite Hh in E|].
  rewrite (SharedPtr_move_eq s T h other o) in E by done. injection E as <-.
  eapply steps_handles, steps_done.
Qed.

Lemma SharedPtr_alias_steps s s' T h other ptr :
  inv s → (Z.of_nat (size (handles s)) < SIZE_MAX - 1)%Z →
  SharedPtr_alias T h other ptr s = Some s' → steps 0 s s'.
Proof.
  intros Hinv Hroom E. unfold SharedPtr_alias, declare in E.
  destruct (handles s !! other) as [o|] eqn:Ho; [|done]. simpl in E.
  destruct (handles s !! h) eqn:Hh; [done|]. simpl in E.
  destruct (control_block_ o) as [b|] eqn:Hb; [|done].
  destruct (held_block_live s other o b) as (cb & Hcb & Hn); [done..|].
  eapply steps_put_handle.
  eapply steps_incr; [exact Hcb| |exact E|apply steps_done]. lia.
Qed.

Lemma SharedPtr_dtor_steps s s' h :
  SharedPtr_dtor h s = Some s' → steps 0 s s'.
Proof.
  unfold SharedPtr_dtor. intros E.
  destruct (handles s !! h) as [v|]; [|done]. simpl in E.
  destruct (release (control_block_ v) s) as [s1|] eqn:E1; [|done].
  simpl in E. injection E as <-.
  eapply steps_release; [exact E1|]. eapply steps_drop_handle, steps_done.
Qed.

Lemma Reset_steps s s' h :
  Reset h s = Some s' → steps 0 s s'.
Proof.
  intros E. apply Reset_facts in E as (v & s1 & _ & E1 & ->).
  eapply steps_release; [exact E1|]. eapply steps_put_handle, steps_done.
Qed.

Lemma Reset_ptr_steps s s' Y h ptr :
  Reset_ptr Y h ptr s = Some s' → steps 1 s s'.
Proof.
  unfold Reset_ptr. intros E.
  destruct (handles s !! h) as [v|] eqn:Hh; [|done]. simpl in E.
  destruct (release (control_block_ v) s) as [s1|] eqn:E1; [|done]. simpl in E.
  pose proof (release_handles _ _ _ E1) as Hhs.
  unfold set_data_ in E. rewrite Hhs, Hh in E. simpl in E.
  unfold set_control_block_ in E. simpl in E. rewrite lookup_insert_eq in E.
  simpl in E. injection E as <-.
  eapply steps_release; [exact E1|]. eapply steps_put_handle.
  apply (steps_new_block _ _ (ControlBlockPtr Y ptr)).
  eapply steps_put_handle, steps_done.
Qed.

Lemma copy_assign_steps s s' this other :
  inv s → (Z.of_nat (size (handles s)) < SIZE_MAX - 1)%Z →
  copy_assign this other s = Some s' → steps 0 s s'.
Proof.
  intros Hinv Hroom E.
  destruct (decide (this = other)) as [->|Hne].
  { rewrite copy_assign_self_eq in E. by apply Reset_steps in E. }
  unfold copy_assign in E.
  destruct (Reset this s) as [s1|] eqn:ER; [|done].
  destruct (Reset_inv s s1 this Hinv Hroom ER) as (Hi & Hsz & [e He] & Hfr).
  apply Reset_steps in ER. simpl in E.
  destruct (handles s1 !! other) as [o|] eqn:Ho; [|done].
  assert (Hn : has_count (blocks s1) (control_block_ o) 0 (SIZE_MAX - 1)).
  { eapply inv_has_count; [done..|lia|lia]. }
  rewrite <- Ho in E. rewrite (assign_fields_eq s1 this other e o) in E by done.
  apply (steps_trans 0 0 s s1 s'); [done|].
  eapply (steps_handles _ _ (<[this := mkPtr e (data_ o) (control_block_ o)]> (handles s1))).
  destruct (control_block_ o) as [b|] eqn:Hb.
  - destruct Hn as (cb & Hcb & Hcn).
    eapply steps_incr; [exact Hcb|lia| |apply steps_done].
    rewrite (incr_ref_cnt_live b cb) by (done || lia). simpl.
    simpl in E. rewrite (alter_lookup_insert _ _ _ cb) in E by done. exact E.
  - simpl in E. rewrite app_nil_r in E. injection E as <-. apply steps_done.
Qed.

Lemma move_assign_steps s s' this other :
  inv s → (Z.of_nat (size (handles s)) < SIZE_MAX - 1)%Z →
  move_assign this other s = Some s' → steps 0 s s'.
Proof.
  intros Hinv Hroom E.
  destruct (decide (this = other)) as [->|Hne].
  { rewrite move_assign_self_eq in E. by apply Reset_steps in E. }
  unfold move_assign in E.
  destruct (Reset this s) as [s1|] eqn:ER; [|done].
  destruct (Reset_inv s s1 this Hinv Hroom ER) as (Hi & Hsz & [e He] & Hfr).
  apply Reset_steps in ER. simpl in E.
  destruct (handles s1 !! other) as [o|] eqn:Ho; [|done].
  rewrite <- Ho in E. rewrite (steal_fields_eq s1 this other e o) in E by done.
  injection E as <-.
  apply (steps_trans 0 0 s s1); [done|]. eapply steps_handles, steps_done.
Qed.

Lemma Swap_steps s s' this other :
  inv s → (Z.of_nat (size (handles s)) < SIZE_MAX - 2)%Z →
  Swap this other s = Some s' → steps 0 s s'.
Proof.
  intros Hinv Hroom E. unfold Swap in E.
  destruct (handles s !! this) as [t|] eqn:Ht; [|done]. simpl in E.
  destruct (SharedPtr_copy (elem t) (fresh (dom (handles s))) this s)
    as [s1|] eqn:E1; [|done]. simpl in E.
  destruct (copy_assign this other s1) as [s2|] eqn:E2; [|done]. simpl in E.
  destruct (copy_assign other (fresh (dom (handles s))) s2) as [s3|] eqn:E3; [|done].
  simpl in E.
  pose proof E1 as F1. apply SharedPtr_copy_inv in F1 as [Hi1 Hsz1]; [|done|lia].
  pose proof E2 as F2. apply copy_assign_inv in F2 as [Hi2 Hsz2]; [|done|lia].
  pose proof E3 as F3. apply copy_assign_inv in F3 as [Hi3 Hsz3]; [|done|lia].
  apply SharedPtr_copy_steps in E1; [|done|lia].
  apply copy_assign_steps in E2; [|done|lia].
  apply copy_assign_steps in E3; [|done|lia].
  apply SharedPtr_dtor_steps in E.
  apply (steps_trans 0 0 s s1); [done|].
  apply (steps_trans 0 0 s1 s2); [done|].
  by apply (steps_trans 0 0 s2 s3).
Qed.

Lemma MakeShared_steps s s' Y ctor h args :
  MakeShared Y ctor h args s = Some s' → steps 1 s s'.
Proof.
  unfold MakeShared, SharedPtr_default, declare. intros E.
  destruct (handles s !! h) eqn:Hh; [done|]. simpl in E.
  unfold set_control_block_ in E. simpl in E. rewrite lookup_insert_eq in E.
  simpl in E. unfold set_data_ in E. simpl in E. rewrite lookup_insert_eq in E.
  simpl in E. injection E as <-.
  eapply steps_put_handle.
  apply (steps_new_block _ _ (ControlBlockHolder Y (ctor args))).
  eapply steps_put_handle, steps_put_handle, steps_done.
Qed.

Lemma exec_steps c s s' :
  inv s → (Z.of_nat (size (handles s)) ≤ MAX_HANDLES)%Z →
  exec c s = Some s' → steps (allocs_of c) s s'.
Proof.
  intros Hinv Hfit E.
  assert (Hsmall : (MAX_HANDLES + 2 < SIZE_MAX)%Z)
    by (unfold MAX_HANDLES, SIZE_MAX; lia).
  destruct c; simpl in E; simpl allocs_of.
  - injection E as <-. apply (steps_new_object _ _ v), steps_done.
  - by apply SharedPtr_default_steps in E.
  - by apply SharedPtr_default_steps in E.
  - by apply SharedPtr_from_ptr_steps in E.
  - apply SharedPtr_copy_steps in E; [done|done|lia].
  - by apply SharedPtr_move_steps in E.
  - apply SharedPtr_alias_steps in E; [done|done|lia].
  - apply copy_assign_steps in E; [done|done|lia].
  - apply move_assign_steps in E; [done|done|lia].
  - by apply SharedPtr_dtor_steps in E.
  - by apply Reset_steps in E.
  - by apply Reset_ptr_steps in E.
  - apply Swap_steps in E; [done|done|lia].
  - by apply MakeShared_steps in E.
Qed.

(** ** States that programs reach *)

Lemma init_positive : counts_positive (blocks init).
Proof. apply map_Forall_empty. Qed.

Lemma init_balanced : balanced init.
Proof. intros b. done. Qed.

Lemma run_ledger cs : ∀ s s',
  inv s → counts_positive (blocks s) → balanced s →
  run cs s = Some s' →
  counts_positive (blocks s') ∧ balanced s'.
Proof.
  induction cs as [|c cs IH]; intros s s' Hinv Hp Hb E; simpl in E.
  - by injection E as <-.
  - destruct (decide (fits s)) as [Hfit|]; [|done].
    destruct (exec c s) as [s1|] eqn:E1; [|done]. simpl in E.
    destruct (exec_inv c s s1 Hinv Hfit E1) as [Hi1 _].
    assert (Hst : steps (allocs_of c) s s1).
    { apply exec_steps; [done| |done]. unfold fits in Hfit. lia. }
    apply (IH s1 s'); [done| | |done].
    + by eapply steps_positive.
    + by eapply steps_balanced.
Qed.

Lemma refs_witness hs b :
  1 ≤ refs hs b → ∃ h v, hs !! h = Some v ∧ control_block_ v = Some b.
Proof.
  unfold refs. intros Hn.
  destruct (map_size_ne_0_lookup_1
              (filter (λ kv : nat * SharedPtr, control_block_ kv.2 = Some b) hs))
    as (h & [v Hv]); [lia|].
  apply map_lookup_filter_Some in Hv as [Hv Hc]. by exists h, v.
Qed.

(** X1.  In every state that a program reaches, the count stored in a live
    block is the number of handles that hold the block, and it is at least 1;
    the block of every handle is alive, and [UseCount()] on the handle returns
    the number of handles holding that block. *)
Theorem counts_are_handle_numbers (cs : list call) (s : state) :
  run cs init = Some s →
  (∀ b cb, blocks s !! b = Some cb →
     ref_cnt cb = Z.of_nat (refs (handles s) b) ∧ (1 ≤ ref_cnt cb)%Z)
  ∧ (∀ h v b, handles s !! h = Some v → control_block_ v = Some b →
       is_Some (blocks s !! b)
       ∧ UseCount s v = Some (Z.of_nat (refs (handles s) b))).
Proof.
  intros E.
  destruct (run_inv cs init s init_inv) as [Hinv Hsz]; [done|done|].
  destruct (run_ledger cs init s init_inv init_positive init_balanced E)
    as [Hpos _].
  split.
  - intros b cb Hb. pose proof (inv_cnt s Hinv b) as Hc.
    rewrite (cnt_lookup _ _ _ Hb) in Hc. split; [done|].
    by destruct (Hpos b cb Hb).
  - intros h v b Hh Hb.
    destruct (held_block_live s h v b Hinv Hh Hb) as (cb & Hcb & _).
    split; [by eauto|]. unfold UseCount. rewrite Hb, Hcb. simpl. f_equal.
    pose proof (inv_cnt s Hinv b) as Hc. by rewrite (cnt_lookup _ _ _ Hcb) in Hc.
Qed.

Lemma counts_are_handle_numbers_witness :
  UseCount pair_shared (mkPtr "Pair" (Some (Emb 0 0)) (Some 0))
  = Some (Z.of_nat (refs (handles pair_shared) 0)).
Proof.
  destruct (counts_are_handle_numbers pair_program pair_shared) as [_ H].
  - vm_compute. reflexivity.
  - destruct (H 0 (mkPtr "Pair" (Some (Emb 0 0)) (Some 0)) 0) as [_ U].
    + reflexivity.
    + reflexivity.
    + exact U.
Defined.

Lemma reachable_facts cs s :
  run cs init = Some s →
  inv s ∧ (Z.of_nat (size (handles s)) ≤ MAX_HANDLES)%Z
  ∧ counts_positive (blocks s) ∧ balanced s.
Proof.
  intros E.
  destruct (run_inv cs init s init_inv) as [Hinv Hsz]; [done|done|].
  destruct (run_ledger cs init s init_inv init_positive init_balanced E)
    as [Hpos Hbal].
  done.
Qed.

Lemma reachable_holder cs s b cb :
  run cs init = Some s → blocks s !! b = Some cb →
  ∃ h v, handles s !! h = Some v ∧ control_block_ v = Some b.
Proof.
  intros E Hb. destruct (reachable_facts cs s E) as (Hinv & _ & Hpos & _).
  apply refs_witness. pose proof (inv_cnt s Hinv b) as Hc.
  rewrite (cnt_lookup _ _ _ Hb) in Hc. destruct (Hpos b cb Hb). lia.
Qed.

(** X2.  In every state that a program reaches, each live control block is
    held by at least one handle; when no handle is left, no control block is
    left either. *)
Theorem no_orphan_blocks (cs : list call) (s : state) :
  run cs init = Some s →
  (∀ b cb, blocks s !! b = Some cb →
     ∃ h v, handles s !! h = Some v ∧ control_block_ v = Some b)
  ∧ (handles s = ∅ → blocks s = ∅).
Proof.
  intros E. split.
  - intros b cb Hb. by eapply reachable_holder.
  - intros Hempty. apply map_empty. intros b.
    destruct (blocks s !! b) as [cb|] eqn:Hb; [|done].
    destruct (reachable_holder cs s b cb E Hb) as (h & v & Hh & _).
    by rewrite Hempty, lookup_empty in Hh.
Qed.

Lemma no_orphan_blocks_witness :
  ∃ h v, handles pair_shared !! h = Some v ∧ control_block_ v = Some 0.
Proof.
  destruct (no_orphan_blocks pair_program pair_shared) as [H _].
  - vm_compute. reflexivity.
  - apply (H 0 (mkBlock 2 (ControlBlockHolder "Pair" [3; 4]%Z))). reflexivity.
Defined.



(** X4.  In every state that a program reaches, a defined call extends the
    trace, and the extension holds exactly one allocation for [new] in client
    code, for the constructor from a raw pointer, for [Reset(Y* ptr)] and for
    [MakeShared], and none for every other call: the default and null
    constructors, the copy, move and aliasing constructors, both assignments,
    the destructor, [Reset()] and [Swap] never allocate. *)
Theorem call_allocations (cs : list call) (s : state) (c : call) (s' : state) :
  run cs init = Some s →
  exec c s = Some s' →
  ∃ new, trace s' = trace s ++ new ∧ allocations new = allocs_of c.
Proof.
  intros E Ec. destruct (reachable_facts cs s E) as (Hinv & Hsz & _ & _).
  eapply steps_trace, exec_steps; done.
Qed.

Lemma call_allocations_witness :
  ∃ new,
    trace pair_shared ++ [EvIncr 0; EvDecr 0; EvIncr 0; EvDecr 0; EvIncr 0; EvDecr 0]
    = trace pair_shared ++ new
    ∧ allocations new = 0.
Proof.
  apply (call_allocations pair_program pair_shared (CallSwap 0 1)
           (mkState (handles pair_shared) (blocks pair_shared) ∅
              (trace pair_shared
               ++ [EvIncr 0; EvDecr 0; EvIncr 0; EvDecr 0; EvIncr 0; EvDecr 0]))).
  - vm_compute. reflexivity.
  - vm_compute. reflexivity.
Defined.

(** ** The modifiers on reachable states *)











(** ** Empty handles as sources *)

Lemma state_eta s : mkState (handles s) (blocks s) (objects s) (trace s) = s.
Proof. by destruct s. Qed.

Lemma move_assign_keep_eq s this other t o :
  this ≠ other →
  handles s !! this = Some t →
  handles s !! other = Some o →
  has_count (blocks s) (control_block_ t) 2 SIZE_MAX →
  move_assign this other s
  = Some (mkState (<[other := mkPtr (elem o) None None]>
                     (<[this := mkPtr (elem t) (data_ o) (control_block_ o)]> (handles s)))
            (bump (control_block_ t) (-1) (blocks s)) (objects s)
            (trace s ++ decr_events (control_block_ t))).
Proof.
  intros Hne Ht Ho Hn. unfold move_assign.
  rewrite (Reset_keep_eq s this t) by done. simpl mbind.
  erewrite steal_fields_eq; [|store_lookup..].
  simpl. by rewrite insert_insert_eq.
Qed.

(** X9.  Let [src] be an empty handle (null data, no block).  Copy and move
    construction from [src] are defined and make another empty handle without
    touching any block or the trace; assigning [src], by copy or by move, to
    an empty handle [dst] (which may be [src] itself) and swapping the two
    leave the whole state as it was.  The aliasing constructor alone is not
    defined on an empty source: its increment is not guarded. *)
Theorem empty_source_operations (s : state) (src : hid) (e1 : cls) :
  handles s !! src = Some (mkPtr e1 None None) →
  (∀ T h, handles s !! h = None →
     SharedPtr_copy T h src s = Some (put_handle h (mkPtr T None None) s)
     ∧ SharedPtr_move T h src s = Some (put_handle h (mkPtr T None None) s))
  ∧ (∀ e2 dst, handles s !! dst = Some (mkPtr e2 None None) →
       copy_assign dst src s = Some s
       ∧ move_assign dst src s = Some s
       ∧ Swap dst src s = Some s)
  ∧ (∀ T h ptr, handles s !! h = None → SharedPtr_alias T h src ptr s = None).
Proof.
  intros Hsrc. split; [|split].
  - intros T h Hh. assert (h ≠ src) by congruence. split.
    + by rewrite (SharedPtr_copy_keep_eq s T h src _ Hsrc), app_nil_r.
    + rewrite (SharedPtr_move_eq s T h src _ Hsrc Hh). simpl.
      unfold put_handle. do 2 f_equal.
      apply insert_id. by rewrite lookup_insert_ne.
  - intros e2 dst Hdst.
    assert (Hid : ∀ e h, handles s !! h = Some (mkPtr e None None) →
              mkState (<[h := mkPtr e None None]> (handles s)) (blocks s)
                (objects s) (trace s ++ []) = s).
    { intros e h Hh. rewrite insert_id, app_nil_r by done. apply state_eta. }
    destruct (decide (dst = src)) as [->|Hne].
    + rewrite copy_assign_self_eq, move_assign_self_eq.
      rewrite (Reset_keep_eq s src _ Hsrc) by done. simpl.
      rewrite (Swap_self_eq s src _ Hsrc) by done. simpl.
      rewrite (Hid e1 src Hsrc). rewrite app_nil_r, state_eta. done.
    + rewrite (copy_assign_keep_eq s dst src _ _ Hne Hdst Hsrc) by done.
      rewrite (move_assign_keep_eq s dst src _ _ Hne Hdst Hsrc) by done.
      rewrite (Swap_ne_eq s dst src _ _ Hne Hdst Hsrc) by done. simpl.
      rewrite (Hid e2 dst Hdst).
      rewrite (insert_id (handles s) dst), (insert_id (handles s) src) by done.
      rewrite app_nil_r, state_eta. done.
  - intros T h ptr Hh. unfold SharedPtr_alias, declare.
    rewrite Hsrc. simpl. rewrite Hh. done.
Qed.

Lemma empty_source_operations_witness :
  Swap 0 0 (mkState {[0 := mkPtr "int" None None]} ∅ ∅ [])
  = Some (mkState {[0 := mkPtr "int" None None]} ∅ ∅ []).
Proof.
  destruct (empty_source_operations
              (mkState {[0 := mkPtr "int" None None]} ∅ ∅ []) 0 "int")
    as (_ & H & _).
  - reflexivity.
  - destruct (H "int" 0) as (_ & _ & Hs); [reflexivity | exact Hs].
Defined.

(** ** How the operations compose *)

(** X10.  Let [a] and [b] be handles (possibly the same one) whose blocks,
    where they have one, are alive with a count from 1 to [SIZE_MAX - 1].
    Swapping twice is defined and gives back the handles, the blocks with
    their counts and the objects of the start; and [b.Swap(a)] leaves the same
    handles and blocks as [a.Swap(b)]. *)
Theorem Swap_twice_restores (s : state) (a b : hid) (va vb : SharedPtr) :
  handles s !! a = Some va →
  handles s !! b = Some vb →
  has_count (blocks s) (control_block_ va) 1 (SIZE_MAX - 1) →
  has_count (blocks s) (control_block_ vb) 1 (SIZE_MAX - 1) →
  ∃ s1 s2 s1', Swap a b s = Some s1
    ∧ Swap a b s1 = Some s2
    ∧ Swap b a s = Some s1'
    ∧ handles s2 = handles s ∧ blocks s2 = blocks s ∧ objects s2 = objects s
    ∧ handles s1' = handles s1 ∧ blocks s1' = blocks s1.
Proof.
  intros Ha Hb Hna Hnb.
  destruct (decide (a = b)) as [->|Hne].
  - assert (vb = va) as -> by congruence.
    rewrite (Swap_self_eq s b va) by done.
    eexists _, _, _. split; [done|].
    rewrite (Swap_self_eq _ b va) by done. simpl. done.
  - rewrite (Swap_ne_eq s a b va vb) by done.
    rewrite (Swap_ne_eq s b a vb va) by done.
    eexists _, _, _. split; [done|].
    rewrite (Swap_ne_eq _ a b (mkPtr (elem va) (data_ vb) (control_block_ vb))
               (mkPtr (elem vb) (data_ va) (control_block_ va)));
      [|done|store_lookup..].
    split; [done|]. split; [done|]. simpl.
    split; [|split; [done|split; [done|split; [|done]]]].
    + apply map_eq. intros j.
      destruct (decide (j = b)) as [->|?];
        [rewrite lookup_insert_eq, Hb; by destruct vb|].
      rewrite lookup_insert_ne by done.
      destruct (decide (j = a)) as [->|?];
        [rewrite lookup_insert_eq, Ha; by destruct va|].
      by rewrite !lookup_insert_ne.
    + by apply insert_insert_ne.
Qed.

Lemma Swap_twice_restores_witness :
  ∃ s1 s2, Swap 0 1 two_blocks = Some s1 ∧ Swap 0 1 s1 = Some s2
    ∧ handles s2 = handles two_blocks.
Proof.
  destruct (Swap_twice_restores two_blocks 0 1
              (mkPtr "Pair" (Some (Emb 0 0)) (Some 0)) (mkPtr "Pair" None (Some 1)))
    as (s1 & s2 & _ & E1 & E2 & _ & H & _).
  - reflexivity.
  - reflexivity.
  - simpl. eexists. split; [reflexivity|]. unfold SIZE_MAX. simpl. lia.
  - simpl. eexists. split; [reflexivity|]. unfold SIZE_MAX. simpl. lia.
  - exists s1, s2. split; [exact E1|]. split; [exact E2 | exact H].
Defined.

(** X11.  Let [src] be a handle whose block, if it has one, is alive with a
    count from 1 to [SIZE_MAX - 1].  A copy of [src], for any static type,
    that is then destroyed (as a by-value argument is) leaves the handles, the
    blocks with their counts and the objects as they were; the trace gains one
    increment and one decrement when [src] has a block, and nothing when it
    has none. *)
Theorem temporary_copy_is_neutral (s : state) (T : cls) (h src : hid) (v : SharedPtr) :
  handles s !! src = Some v →
  handles s !! h = None →
  has_count (blocks s) (control_block_ v) 1 (SIZE_MAX - 1) →
  ∃ s1 s2, SharedPtr_copy T h src s = Some s1
    ∧ SharedPtr_dtor h s1 = Some s2
    ∧ handles s2 = handles s ∧ blocks s2 = blocks s ∧ objects s2 = objects s
    ∧ trace s2 = trace s ++ incr_events (control_block_ v)
               ++ decr_events (control_block_ v).
Proof.
  intros Hv Hh Hn.
  rewrite (SharedPtr_copy_keep_eq s T h src v);
    [|done|by eapply has_count_weaken; [| |exact Hn]; lia|done].
  eexists _, _. split; [done|].
  rewrite (SharedPtr_dtor_keep_eq _ h (mkPtr T (data_ v) (control_block_ v)));
    [|store_lookup|].
  2:{ simpl. eapply has_count_weaken; [| |by apply has_count_bump]; lia. }
  split; [done|]. simpl.
  rewrite delete_insert_eq, delete_id by done.
  erewrite bump_cancel by done. by rewrite <- app_assoc.
Qed.

Lemma temporary_copy_is_neutral_witness :
  ∃ s1 s2, SharedPtr_copy "const Pair" 2 0 pair_shared = Some s1
    ∧ SharedPtr_dtor 2 s1 = Some s2
    ∧ blocks s2 = blocks pair_shared.
Proof.
  destruct (temporary_copy_is_neutral pair_shared "const Pair" 2 0
              (mkPtr "Pair" (Some (Emb 0 0)) (Some 0)))
    as (s1 & s2 & E1 & E2 & _ & B & _).
  - reflexivity.
  - reflexivity.
  - simpl. eexists. split; [reflexivity|]. unfold SIZE_MAX. simpl. lia.
  - exists s1, s2. split; [exact E1|]. split; [exact E2 | exact B].
Defined.

Lemma MakeShared_eq s Y ctor h args :
  handles s !! h = None →
  MakeShared Y ctor h args s
  = Some (mkState
            (<[h := mkPtr Y (Some (Emb (fresh (dom (blocks s))) 0))
                     (Some (fresh (dom (blocks s))))]> (handles s))
            (<[fresh (dom (blocks s)) := mkBlock 1 (ControlBlockHolder Y (ctor args))]>
               (blocks s))
            (objects s)
            (trace s ++ [EvNewBlock (fresh (dom (blocks s)))])).
Proof.
  intros Hh. unfold MakeShared, SharedPtr_default, declare. rewrite Hh. simpl.
  erewrite set_control_block__eq by (simpl; apply lookup_insert_eq). simpl.
  erewrite set_data__eq by (simpl; apply lookup_insert_eq). simpl.
  unfold put_handle. simpl. by rewrite !insert_insert_eq.
Qed.

(** X12.  Make an object with [MakeShared<Y>], move the handle into a handle
    [h2] of any static type [T] (a converting move, as in
    [SharedPtr<A> p = MakeShared<B>()]), and destroy both handles.  All four
    steps are defined; the moved-from handle releases nothing; the trace gains
    the one allocation of the block, the destructor of [Y] run in place on the
    embedded object, and the one deallocation of the block, with no separate
    deallocation of the object; handles, blocks and objects end as they
    started. *)
Theorem MakeShared_lifecycle (s : state) (Y T : cls) (ctor : list Z → list Z)
    (h h2 : hid) (args : list Z) :
  handles s !! h = None →
  handles s !! h2 = None →
  h ≠ h2 →
  ∃ s1 s2 s3 s4 b, MakeShared Y ctor h args s = Some s1
    ∧ SharedPtr_move T h2 h s1 = Some s2
    ∧ SharedPtr_dtor h s2 = Some s3
    ∧ trace s3 = trace s2
    ∧ SharedPtr_dtor h2 s3 = Some s4
    ∧ trace s4 = trace s ++ [EvNewBlock b; EvDtor Y (Emb b 0); EvFreeBlock b]
    ∧ object_frees [EvNewBlock b; EvDtor Y (Emb b 0); EvFreeBlock b] = 0
    ∧ handles s4 = handles s ∧ blocks s4 = blocks s ∧ objects s4 = objects s.
Proof.
  intros Hh Hh2 Hne.
  pose proof (fresh_block_unused (blocks s)) as Hf.
  rewrite MakeShared_eq by done.
  set (b := fresh (dom (blocks s))) in *.
  eexists _, _, _, _, b. split; [done|].
  erewrite (SharedPtr_move_eq _ T h2 h (mkPtr Y (Some (Emb b 0)) (Some b)));
    [|store_lookup..].
  split; [done|]. simpl.
  erewrite (SharedPtr_dtor_empty_eq _ h (mkPtr Y None None)); [|store_lookup..].
  split; [done|]. split; [done|]. simpl.
  erewrite (SharedPtr_dtor_last_eq _ h2 (mkPtr T (Some (Emb b 0)) (Some b)) b
              (mkBlock 1 (ControlBlockHolder Y (ctor args)))); [|store_lookup..].
  split; [done|]. simpl. split; [by rewrite <- app_assoc|]. split; [done|].
  split; [|split; [|done]].
  - apply map_eq. intros j.
    destruct (decide (j = h2)) as [->|?]; [by rewrite lookup_delete_eq|].
    rewrite lookup_delete_ne by done.
    destruct (decide (j = h)) as [->|?]; [by rewrite lookup_delete_eq|].
    by rewrite lookup_delete_ne, !lookup_insert_ne by done.
  - by rewrite delete_insert_eq, delete_id.
Qed.

Lemma MakeShared_lifecycle_witness :
  ∃ s1 s2 s3 s4 b, MakeShared "B" (λ args, args) 0 [] init = Some s1
    ∧ SharedPtr_move "A" 1 0 s1 = Some s2
    ∧ SharedPtr_dtor 0 s2 = Some s3
    ∧ SharedPtr_dtor 1 s3 = Some s4
    ∧ trace s4 = [EvNewBlock b; EvDtor "B" (Emb b 0); EvFreeBlock b].
Proof.
  destruct (MakeShared_lifecycle init "B" "A" (λ args, args) 0 1 [])
    as (s1 & s2 & s3 & s4 & b & E1 & E2 & E3 & _ & E4 & Tr & _).
  - reflexivity.
  - reflexivity.
  - discriminate.
  - exists s1, s2, s3, s4, b. repeat (split; [eassumption|]). exact Tr.
Defined.

(** ** Objects *)

Lemma fresh_object_unused (m : gmap nat (list Z)) : m !! fresh (dom m) = None.
Proof. apply not_elem_of_dom, is_fresh. Qed.

Lemma steps_objects n s s' :
  steps n s s' →
  ∀ l o, objects s !! l = Some o →
    objects s' !! l = Some o
    ∨ ∃ Y new, trace s' = trace s ++ new
        ∧ EvDtor Y (Obj l 0) ∈ new ∧ EvFreeObj l ∈ new.
Proof.
  induction 1 as [s|n s hs s' _ IH|n s c s0 s' E Hst IH|n s b cb s0 s' Hb Hn E _ IH
                  |n s k s' _ IH|n s v s' _ IH]; intros l o Hl.
  - by left.
  - by apply IH.
  - assert (Hkeep : ∀ ev, objects s0 !! l = Some o → trace s0 = trace s ++ ev →
              objects s' !! l = Some o
              ∨ ∃ Y new, trace s' = trace s ++ new
                  ∧ EvDtor Y (Obj l 0) ∈ new ∧ EvFreeObj l ∈ new).
    { intros ev Hl0 Htr. destruct (IH l o Hl0) as [?|(Y & new & Ht & H1 & H2)];
        [by left|right].
      exists Y, (ev ++ new). rewrite Ht, Htr, app_assoc. split; [done|].
      split; apply elem_of_app; by right. }
    apply release_cases in E
      as [[_ ->]|[(b & cb & _ & _ & _ & ->)|(b & cb & _ & _ & _ & _ & ->)]].
    + apply (Hkeep []); [done|by rewrite app_nil_r].
    + by apply (Hkeep [EvDecr b]).
    + destruct (derived cb) as [Y [[l' [|off]|b' off]|]|Y st] eqn:Hd;
        try (by eapply Hkeep).
      destruct (decide (l' = l)) as [->|Hne].
      * right. destruct (steps_trace _ _ _ Hst) as (new & Ht & _).
        exists Y, (([EvDtor Y (Obj l 0); EvFreeObj l] ++ [EvFreeBlock b]) ++ new).
        split; [rewrite Ht; simpl; by rewrite <- !app_assoc|].
        split; apply elem_of_app; left; apply elem_of_app; left.
        -- apply list_elem_of_here.
        -- apply list_elem_of_further, list_elem_of_here.
      * eapply Hkeep; [|done]. simpl. by rewrite lookup_delete_ne.
  - unfold incr_ref_cnt in E. simpl in E. rewrite Hb in E. simpl in E.
    injection E as <-.
    destruct (IH l o Hl) as [?|(Y & new & Ht & H1 & H2)]; [by left|right].
    exists Y, ([EvIncr b] ++ new). simpl in Ht. rewrite Ht, app_assoc.
    split; [done|]. split; apply elem_of_app; by right.
  - destruct (IH l o Hl) as [?|(Y & new & Ht & H1 & H2)]; [by left|right].
    exists Y, ([EvNewBlock (fresh (dom (blocks s)))] ++ new).
    simpl in Ht. rewrite Ht, app_assoc.
    split; [done|]. split; apply elem_of_app; by right.
  - pose proof (fresh_object_unused (objects s)) as Hf.
    assert (Hl' : objects (new_object v s) !! l = Some o).
    { simpl. rewrite lookup_insert_ne; [done|]. congruence. }
    destruct (IH l o Hl') as [?|(Y & new & Ht & H1 & H2)]; [by left|right].
    exists Y, ([EvNewObj (fresh (dom (objects s)))] ++ new).
    simpl in Ht. rewrite Ht, app_assoc.
    split; [done|]. split; apply elem_of_app; by right.
Qed.

(** X13.  In a state that a program reaches, a defined call leaves every
    object that existed before it in place with the same contents, unless the
    extension of the trace shows the destructor run on that object and the
    return of its storage: the header never writes to an object and removes
    one only by [delete]. *)
Theorem objects_kept_or_deleted (cs : list call) (s : state) (c : call) (s' : state)
    (l : loc) (o : list Z) :
  run cs init = Some s →
  exec c s = Some s' →
  objects s !! l = Some o →
  objects s' !! l = Some o
  ∨ ∃ Y new, trace s' = trace s ++ new
      ∧ EvDtor Y (Obj l 0) ∈ new ∧ EvFreeObj l ∈ new.
Proof.
  intros E Ec Hl. destruct (reachable_facts cs s E) as (Hinv & Hsz & _ & _).
  eapply steps_objects; [|done]. by eapply exec_steps.
Qed.

Lemma objects_kept_or_deleted_witness :
  objects (mkState ∅ ∅ ∅ (trace int_owner
                          ++ [EvDtor "int" (Obj 0 0); EvFreeObj 0; EvFreeBlock 0]))
    !! 0 = Some [42%Z]
  ∨ ∃ Y new,
      trace (mkState ∅ ∅ ∅ (trace int_owner
                            ++ [EvDtor "int" (Obj 0 0); EvFreeObj 0; EvFreeBlock 0]))
      = trace int_owner ++ new
      ∧ EvDtor Y (Obj 0 0) ∈ new ∧ EvFreeObj 0 ∈ new.
Proof.
  apply (objects_kept_or_deleted int_owner_program int_owner (CallDtor 0)).
  - vm_compute. reflexivity.
  - vm_compute. reflexivity.
  - reflexivity.
Defined.

(** X14.  Construct two handles from the same raw pointer to a live object.
    Both constructions are defined and each allocates its own block with count
    1, so each handle reports [UseCount() = 1].  Destroying the first handle
    destroys the object although the second still points to it: dereferencing
    the second is then undefined, and so are its destructor and its
    [Reset()], which would [delete] the object again. *)
Theorem adopting_twice_deletes_twice (s : state) (T Y : cls) (h1 h2 : hid)
    (l : loc) (o : list Z) :
  handles s !! h1 = None →
  handles s !! h2 = None →
  h1 ≠ h2 →
  objects s !! l = Some o →
  ∃ s1 s2 s3 b1 b2,
    SharedPtr_from_ptr T Y h1 (Some (Obj l 0)) s = Some s1
    ∧ SharedPtr_from_ptr T Y h2 (Some (Obj l 0)) s1 = Some s2
    ∧ b1 ≠ b2
    ∧ handles s2 !! h1 = Some (mkPtr T (Some (Obj l 0)) (Some b1))
    ∧ handles s2 !! h2 = Some (mkPtr T (Some (Obj l 0)) (Some b2))
    ∧ UseCount s2 (mkPtr T (Some (Obj l 0)) (Some b1)) = Some 1%Z
    ∧ UseCount s2 (mkPtr T (Some (Obj l 0)) (Some b2)) = Some 1%Z
    ∧ SharedPtr_dtor h1 s2 = Some s3
    ∧ objects s3 !! l = None
    ∧ handles s3 !! h2 = Some (mkPtr T (Some (Obj l 0)) (Some b2))
    ∧ deref s3 (mkPtr T (Some (Obj l 0)) (Some b2)) = None
    ∧ SharedPtr_dtor h2 s3 = None
    ∧ Reset h2 s3 = None.
Proof.
  intros Hh1 Hh2 Hne Hl.
  rewrite SharedPtr_from_ptr_eq by done.
  set (b1 := fresh (dom (blocks s))).
  set (k := ControlBlockPtr Y (Some (Obj l 0))).
  pose (b2 := fresh (dom (<[b1 := mkBlock 1 k]> (blocks s)))).
  assert (Hb : b1 ≠ b2).
  { intros Heq. pose proof (fresh_block_unused (<[b1 := mkBlock 1 k]> (blocks s))) as Hf.
    fold b2 in Hf. rewrite <- Heq, lookup_insert_eq in Hf. done. }
  eexists _, _, _, b1, b2.
  split; [done|].
  rewrite SharedPtr_from_ptr_eq by store_lookup. simpl.
  fold b2.
  split; [done|]. split; [done|].
  split; [store_lookup|]. split; [store_lookup|].
  split; [unfold UseCount; by store_lookup|].
  split; [unfold UseCount; by store_lookup|].
  erewrite (SharedPtr_dtor_last_eq _ h1 (mkPtr T (Some (Obj l 0)) (Some b1)) b1
              (mkBlock 1 k)); [|store_lookup..].
  split; [done|]. simpl.
  split; [apply lookup_delete_eq|]. split; [store_lookup|].
  split; [unfold deref, load; simpl; by rewrite lookup_delete_eq|].
  assert (Hrel : ∀ hs tr,
            release (Some b2)
              (mkState hs (delete b1 (<[b2 := mkBlock 1 k]> (<[b1 := mkBlock 1 k]> (blocks s))))
                 (delete l (objects s)) tr) = None).
  { intros hs tr. unfold release. simpl.
    rewrite lookup_delete_ne, lookup_insert_eq by done. simpl.
    unfold delete_control_block. simpl.
    rewrite lookup_delete_ne, lookup_insert_eq by done. simpl.
    by rewrite lookup_delete_eq. }
  split.
  - unfold SharedPtr_dtor. simpl.
    rewrite lookup_delete_ne, lookup_insert_eq by done. simpl. by rewrite Hrel.
  - unfold Reset. simpl.
    rewrite lookup_delete_ne, lookup_insert_eq by done. simpl. by rewrite Hrel.
Qed.

Lemma adopting_twice_deletes_twice_witness :
  ∃ s1 s2 s3, SharedPtr_from_ptr "int" "int" 0 (Some (Obj 7 0)) one_object = Some s1
    ∧ SharedPtr_from_ptr "int" "int" 1 (Some (Obj 7 0)) s1 = Some s2
    ∧ SharedPtr_dtor 0 s2 = Some s3
    ∧ SharedPtr_dtor 1 s3 = None.
Proof.
  destruct (adopting_twice_deletes_twice one_object "int" "int" 0 1 7 [1%Z])
    as (s1 & s2 & s3 & b1 & b2 & E1 & E2 & _ & _ & _ & _ & _ & E3 & _ & _ & _ & E4 & _).
  - reflexivity.
  - reflexivity.
  - discriminate.
  - reflexivity.
  - exists s1, s2, s3. split; [exact E1|]. split; [exact E2|].
    split; [exact E3 | exact E4].
Defined.
